(** * The JACK output driver of Shairport Sync (audio_jack.c)

    A shallow embedding of the driver's ring buffer, of the sample
    converter, of the delay estimate and of the client life cycle,
    followed by the properties the specification states about them.

    Conventions of the embedding (LP64, little-endian, IEEE 754):
    - [size_t] and [long] are 64 bits wide, [int] and [jack_nframes_t]
      32 bits, [short] 16 bits; every conversion the C code performs is
      written out with the functions of [CTypes];
    - a pointer is an address in [Z]; the heap is a function from addresses
      to bytes (numbers in 0..255);
    - [double] is binary64, computed with the primitive floats, and
      [jack_default_audio_sample_t] ([float]) is binary32, a [spec_float]
      rounded with [SpecFloat];
    - the two mutexes, the log and the calls into libjack appear as
      events of a trace, in program order;
    - where C leaves the behaviour undefined (signed overflow, an access
      outside the block) the embedding wraps around, respectively reads and
      writes the heap at that address: the functions are total, and the
      theorems say under which bounds they speak about defined behaviour;
      a call of [debug] whose arguments do not fit its format ends
      [jack_init] in [Undefined] when [debug] formats it. *)

From Stdlib Require Import ZArith Lia List Bool String QArith Qabs.
From Stdlib Require Import Floats.SpecFloat Floats.PrimFloat Floats.FloatOps Uint63.
Import ListNotations.
Local Open Scope Z_scope.

(** ** Machine integers *)

Module CTypes.

Definition to_unsigned (w z : Z) : Z := z mod 2 ^ w.
Definition to_signed (w z : Z) : Z := (z + 2 ^ (w - 1)) mod 2 ^ w - 2 ^ (w - 1).

Definition to_size_t : Z -> Z := to_unsigned 64.
Definition to_nframes : Z -> Z := to_unsigned 32.   (* jack_nframes_t = uint32_t *)
Definition to_int : Z -> Z := to_signed 32.
Definition to_long : Z -> Z := to_signed 64.
Definition to_int64 : Z -> Z := to_signed 64.
Definition to_short : Z -> Z := to_signed 16.

Definition is_int (z : Z) : Prop := - 2 ^ 31 <= z < 2 ^ 31.
Definition is_int64 (z : Z) : Prop := - 2 ^ 63 <= z < 2 ^ 63.
Definition is_nframes (z : Z) : Prop := 0 <= z < 2 ^ 32.
Definition is_short (z : Z) : Prop := - 2 ^ 15 <= z < 2 ^ 15.

End CTypes.
Import CTypes.

(** ** Memory *)

(** The heap, by address; a byte is a number in 0..255. *)
Definition memory := Z -> Z.

(** The bytes found at a source pointer, by offset from it. *)
Definition bytes := Z -> Z.

(** [memcpy(dst, src, n)]. *)
Definition memcpy (m : memory) (dst : Z) (src : bytes) (n : Z) : memory :=
  fun a => if (dst <=? a) && (a <? dst + n) then src (a - dst) else m a.

(** [buf += k] on a source pointer. *)
Definition advance (src : bytes) (k : Z) : bytes := fun i => src (i + k).

(** [*(short * )p], little-endian. *)
Definition load_short (m : memory) (p : Z) : Z :=
  to_short (m p mod 256 + 256 * (m (p + 1) mod 256)).

(** ** Global state of the driver *)

(* #define buffer_size 44100 * 4 * 2 * 2 *)
Definition buffer_size : Z := 44100 * 4 * 2 * 2.

Record jack_latency_range_t := mk_range { range_min : Z; range_max : Z }.

Record config_t := mk_config {
  audio_backend_latency_offset : Z;
  jack_client_name : option string;       (* NULL is None *)
  jack_left_channel_name : option string;
  jack_right_channel_name : option string;
  jack_auto_client_open_interval : Z;
  jack_auto_client_disconnect : Z
}.

Record globals := mk_globals {
  heap : memory;
  audio_lmb : Z;
  audio_umb : Z;
  audio_toq : Z;
  audio_eoq : Z;
  audio_occupancy : Z;          (* size_t, in frames *)
  latest_left_latency_range : jack_latency_range_t;
  latest_right_latency_range : jack_latency_range_t;
  time_of_latest_transfer : Z;  (* int64_t *)
  client_is_open : Z;           (* int *)
  client : Z;                   (* jack_client_t *, 0 is NULL *)
  sample_rate : Z;              (* jack_nframes_t *)
  jack_latency : Z;
  poller_started : bool;        (* open_client_if_necessary_thread created *)
  config : config_t
}.

Definition set_queue (g : globals) (h : memory) (toq eoq occ : Z) : globals :=
  mk_globals h (audio_lmb g) (audio_umb g) toq eoq occ
    (latest_left_latency_range g) (latest_right_latency_range g)
    (time_of_latest_transfer g) (client_is_open g) (client g) (sample_rate g)
    (jack_latency g) (poller_started g) (config g).

Definition set_transfer (g : globals) (l r : jack_latency_range_t) (t : Z) : globals :=
  mk_globals (heap g) (audio_lmb g) (audio_umb g) (audio_toq g) (audio_eoq g)
    (audio_occupancy g) l r t (client_is_open g) (client g) (sample_rate g)
    (jack_latency g) (poller_started g) (config g).

Definition set_client (g : globals) (c rate is_open : Z) : globals :=
  mk_globals (heap g) (audio_lmb g) (audio_umb g) (audio_toq g) (audio_eoq g)
    (audio_occupancy g) (latest_left_latency_range g) (latest_right_latency_range g)
    (time_of_latest_transfer g) is_open c rate
    (jack_latency g) (poller_started g) (config g).

Definition set_config (g : globals) (c : config_t) : globals :=
  mk_globals (heap g) (audio_lmb g) (audio_umb g) (audio_toq g) (audio_eoq g)
    (audio_occupancy g) (latest_left_latency_range g) (latest_right_latency_range g)
    (time_of_latest_transfer g) (client_is_open g) (client g) (sample_rate g)
    (jack_latency g) (poller_started g) c.

(** ** Events: locks, log lines and calls into libjack *)

Inductive mutex := buffer_mutex | client_mutex.

Inductive port := left_port | right_port.

Inductive message :=
  | msg_cannot_activate                       (* "jackaudio cannot activate client" *)
  | msg_client_opened                         (* "jackaudio client opened." *)
  | msg_cannot_set_latency_callback           (* "jackaudio cannot set latency callback" *)
  | msg_wrong_speed (rate : Z)                (* "jackaudio is running at the wrong speed ..." *)
  | msg_invalid_interval (value default : Z)  (* "Invalid jack auto_client_open_interval ..." *)
  | msg_no_space_for_thread                   (* "Couldn't allocate space for jack server scanner thread" *)
  | msg_try_to_open                           (* "Try to open the jack client" *)
  | msg_cannot_open_for_session.              (* "cannot open a jack client for a play session" *)

Inductive event :=
  | ev_lock (m : mutex)
  | ev_unlock (m : mutex)
  | ev_debug (level : Z) (msg : message)
  | ev_inform (msg : message)
  | ev_client_open
  | ev_set_process_callback
  | ev_port_register (p : port)
  | ev_get_sample_rate
  | ev_set_latency_callback
  | ev_activate
  | ev_get_latency_range (p : port)
  | ev_get_absolute_time
  | ev_pthread_create.

Definition trace := list event.

(** ** play *)

(** [buf] is the packet of the producer: its bytes, by offset; it lies
    outside the block of the ring.  The two branches are the two [memcpy]
    shapes of the source: in one piece, or up to [audio_umb] and then from
    [audio_lmb]. *)
(* int play(void *buf, int samples) *)
Definition play (g : globals) (buf : bytes) (samples : Z) : globals * Z :=
  let bytes_to_transfer := to_size_t (to_int (samples * 2 * 2)) in
  let space_to_end_of_buffer := to_size_t (audio_umb g - audio_eoq g) in
  if space_to_end_of_buffer >=? bytes_to_transfer then
    let h := memcpy (heap g) (audio_eoq g) buf bytes_to_transfer in
    (set_queue g h (audio_toq g)
       (audio_eoq g + bytes_to_transfer)
       (to_size_t (audio_occupancy g + samples)), 0)
  else
    let h1 := memcpy (heap g) (audio_eoq g) buf space_to_end_of_buffer in
    let buf' := advance buf space_to_end_of_buffer in
    let h2 := memcpy h1 (audio_lmb g) buf' (to_size_t (bytes_to_transfer - space_to_end_of_buffer)) in
    (set_queue g h2 (audio_toq g)
       (audio_lmb g + bytes_to_transfer - space_to_end_of_buffer)
       (to_size_t (audio_occupancy g + samples)), 0).

(** ** deinterleave_and_convert_stream *)

Definition SHRT_MAX : Z := 32767.
Definition SHRT_MIN : Z := -32768.

(** An [int] or [short] operand promoted to [double]: exact, the
    magnitude is below 2^53. *)
Definition double_of_int (z : Z) : float :=
  if z <? 0 then PrimFloat.opp (PrimFloat.of_uint63 (Uint63.of_Z (- z)))
  else PrimFloat.of_uint63 (Uint63.of_Z z).

(** The conversion of a [double] to [float] on assignment: rounding to
    nearest even in binary32. *)
Definition float_of_double (x : float) : spec_float :=
  match Prim2SF x with
  | S754_finite s m e => binary_round 24 128 s m e
  | y => y
  end.

(** The body of the loop: from [short sample] to [converted_value]. *)
Definition convert (sample : Z) : spec_float :=
  if sample >=? 0 then
    float_of_double ((1.0 * double_of_int sample) / double_of_int SHRT_MAX)%float
  else
    float_of_double (- (1.0 * double_of_int sample) / double_of_int SHRT_MIN)%float.

Inductive ift_type := IFT_frame_left_sample | IFT_frame_right_sample.

(** An output buffer of JACK: the floats, by index. *)
Definition frame_buffer := Z -> spec_float.

Definition store (b : frame_buffer) (i : Z) (v : spec_float) : frame_buffer :=
  fun j => if j =? i then v else b j.

(** The [for] loop, with [ifp] (a byte address) and [fp] (an index into the
    output buffer) advancing; [n] iterations are left. *)
Fixpoint deinterleave_loop (n : nat) (h : memory) (ifp fp : Z) (out : frame_buffer)
  : frame_buffer :=
  match n with
  | O => out
  | S n' =>
      let sample := load_short h ifp in
      let converted_value := convert sample in
      deinterleave_loop n' h (ifp + 2 + 2) (fp + 1) (store out fp converted_value)
  end.

(* void deinterleave_and_convert_stream(const char *interleaved_frames,
     const jack_default_audio_sample_t *jack_frame_buffer,
     jack_nframes_t number_of_frames, enum ift_type side) *)
Definition deinterleave_and_convert_stream (h : memory) (interleaved_frames : Z)
    (out : frame_buffer) (jack_frame_buffer : Z) (number_of_frames : Z)
    (side : ift_type) : frame_buffer :=
  let ifp := match side with
             | IFT_frame_right_sample => interleaved_frames + 2
             | IFT_frame_left_sample => interleaved_frames
             end in
  deinterleave_loop (Z.to_nat (to_nframes number_of_frames)) h ifp jack_frame_buffer out.

(** ** jack_stream_write_cb *)

Definition float_zero : spec_float := S754_zero false.   (* 0.0 *)

(** The silence loop [for (i = ...; i < nframes; i++)], [n] iterations left. *)
Fixpoint silence_loop (n : nat) (i : Z) (l r : frame_buffer) : frame_buffer * frame_buffer :=
  match n with
  | O => (l, r)
  | S n' => silence_loop n' (i + 1) (store l i float_zero) (store r i float_zero)
  end.

(** What the Sink answers during one callback. *)
Record sink_clock := mk_clock {
  port_latency_range : port -> jack_latency_range_t;  (* jack_port_get_latency_range *)
  absolute_time_in_fp : Z                             (* get_absolute_time_in_fp *)
}.

Record cb_result := mk_cb {
  cb_globals : globals;
  cb_left : frame_buffer;
  cb_right : frame_buffer;
  cb_trace : trace;
  cb_return : Z
}.

(* int jack_stream_write_cb(jack_nframes_t nframes, void *arg) *)
Definition jack_stream_write_cb (g : globals) (sink : sink_clock)
    (left_buffer right_buffer : frame_buffer) (nframes : Z) : cb_result :=
  let frames_we_can_transfer :=
    if audio_occupancy g <? nframes then audio_occupancy g else nframes in
  let '(l, r, toq) :=
    if to_size_t (frames_we_can_transfer * 2 * 2) <=? to_size_t (audio_umb g - audio_toq g) then
      let l := deinterleave_and_convert_stream (heap g) (audio_toq g) left_buffer 0
                 frames_we_can_transfer IFT_frame_left_sample in
      let r := deinterleave_and_convert_stream (heap g) (audio_toq g) right_buffer 0
                 frames_we_can_transfer IFT_frame_right_sample in
      (l, r, audio_toq g + to_size_t (frames_we_can_transfer * 2 * 2))
    else
      let first_portion_to_write := to_size_t (Z.quot (audio_umb g - audio_toq g) (2 * 2)) in
      let '(l1, r1) :=
        if negb (first_portion_to_write =? 0) then
          (deinterleave_and_convert_stream (heap g) (audio_toq g) left_buffer 0
             first_portion_to_write IFT_frame_left_sample,
           deinterleave_and_convert_stream (heap g) (audio_toq g) right_buffer 0
             first_portion_to_write IFT_frame_right_sample)
        else (left_buffer, right_buffer) in
      let rest := to_size_t (frames_we_can_transfer - first_portion_to_write) in
      let l := deinterleave_and_convert_stream (heap g) (audio_lmb g) l1
                 first_portion_to_write rest IFT_frame_left_sample in
      let r := deinterleave_and_convert_stream (heap g) (audio_lmb g) r1
                 first_portion_to_write rest IFT_frame_right_sample in
      (l, r, audio_lmb g + to_size_t (rest * 2 * 2)) in
  let occ := to_size_t (audio_occupancy g - frames_we_can_transfer) in
  let g1 := set_queue g (heap g) toq (audio_eoq g) occ in
  let g2 := set_transfer g1 (port_latency_range sink left_port)
              (port_latency_range sink right_port) (absolute_time_in_fp sink) in
  let i := to_nframes frames_we_can_transfer in
  let '(l', r') := silence_loop (Z.to_nat (nframes - i)) i l r in
  mk_cb g2 l' r'
    [ev_lock buffer_mutex; ev_get_latency_range left_port;
     ev_get_latency_range right_port; ev_get_absolute_time; ev_unlock buffer_mutex]
    0.

(** ** jack_client_open_if_needed *)

(** What the Sink answers during one attempt to open a client. *)
Record sink_session := mk_session {
  reply_client_open : Z;            (* jack_client_open: the handle, 0 is NULL *)
  reply_sample_rate : Z;            (* jack_get_sample_rate *)
  reply_set_latency_callback : Z;   (* jack_set_latency_callback *)
  reply_activate : Z                (* jack_activate *)
}.

(* int jack_client_open_if_needed(void) *)
Definition jack_client_open_if_needed (g : globals) (sink : sink_session)
  : globals * trace * Z :=
  if client_is_open g =? 0 then
    let c := reply_client_open sink in
    if negb (c =? 0) then
      let rate := to_nframes (reply_sample_rate sink) in
      let registered :=
        [ev_lock client_mutex; ev_client_open; ev_set_process_callback;
         ev_port_register left_port; ev_port_register right_port;
         ev_get_sample_rate] in
      if rate =? 44100 then
        if reply_set_latency_callback sink =? 0 then
          if negb (reply_activate sink =? 0) then
            (set_client g c rate (client_is_open g),
             registered ++ [ev_set_latency_callback; ev_activate;
                            ev_debug 1 msg_cannot_activate; ev_unlock client_mutex],
             client_is_open g)
          else
            (set_client g c rate 1,
             registered ++ [ev_set_latency_callback; ev_activate;
                            ev_debug 2 msg_client_opened; ev_unlock client_mutex],
             1)
        else
          (set_client g c rate (client_is_open g),
           registered ++ [ev_set_latency_callback;
                          ev_debug 1 msg_cannot_set_latency_callback;
                          ev_unlock client_mutex],
           client_is_open g)
      else
        (set_client g c rate (client_is_open g),
         registered ++ [ev_inform (msg_wrong_speed rate); ev_unlock client_mutex],
         client_is_open g)
    else
      (set_client g c (sample_rate g) (client_is_open g),
       [ev_lock client_mutex; ev_client_open; ev_unlock client_mutex],
       client_is_open g)
  else
    (g, [ev_lock client_mutex; ev_unlock client_mutex], client_is_open g).

(** One turn of the loop of [open_client_if_necessary_thread_function],
    up to its [sleep]. *)
Definition open_client_if_necessary_tick (g : globals) (sink : sink_session)
  : globals * trace :=
  if client_is_open g =? 0 then
    let '(g', t, _) := jack_client_open_if_needed g sink in
    (g', ev_debug 1 msg_try_to_open :: t)
  else (g, []).

(* void jack_start(int i_sample_rate, int i_sample_format) *)
Definition jack_start (g : globals) (sink : sink_session) : globals * trace :=
  let '(g', t, rc) := jack_client_open_if_needed g sink in
  if rc =? 0 then (g', t ++ [ev_debug 1 msg_cannot_open_for_session]) else (g', t).

(** ** jack_flush *)

(** The three statements that empty the queue, in [jack_init] and in
    [jack_flush]:
    [audio_toq = audio_eoq = audio_lmb; audio_umb = audio_lmb + buffer_size;
     audio_occupancy = 0;] *)
Definition empty_queue (g : globals) (lmb : Z) : globals :=
  mk_globals (heap g) lmb (lmb + buffer_size) lmb lmb 0
    (latest_left_latency_range g) (latest_right_latency_range g)
    (time_of_latest_transfer g) (client_is_open g) (client g) (sample_rate g)
    (jack_latency g) (poller_started g) (config g).

(* void jack_flush() *)
Definition jack_flush (g : globals) : globals := empty_queue g (audio_lmb g).

(** ** jack_delay *)

(* int jack_delay(long *the_delay) *)
Definition jack_delay (g : globals) (time_now : Z) : Z * Z :=
  let delta := to_int64 (time_now - time_of_latest_transfer g) in
  let audio_occupancy_now := audio_occupancy g in
  let frames_processed_since_latest_latency_check :=
    Z.shiftr (to_int64 (delta * 44100)) 32 in
  let base_latency :=
    to_nframes (range_min (latest_left_latency_range g)
                + range_max (latest_left_latency_range g)) / 2 in
  let base_latency :=
    if base_latency =? 0 then
      to_nframes (range_min (latest_right_latency_range g)
                  + range_max (latest_right_latency_range g)) / 2
    else base_latency in
  let the_delay :=
    to_long (to_size_t (to_size_t (base_latency + audio_occupancy_now)
                        - frames_processed_since_latest_latency_check)) in
  (the_delay, 0).

(** ** jack_init *)

(** The settings file, as the lookups of [jack_init] see it. *)
Record settings := mk_settings {
  lookup_client_name : option string;
  lookup_left_channel_name : option string;
  lookup_right_channel_name : option string;
  lookup_auto_client_open_interval : option Z;
  lookup_auto_client_disconnect : option Z
}.

(** What the C library and common.c answer during [jack_init]. *)
Record init_env := mk_init_env {
  malloc_buffer : Z;          (* malloc(buffer_size), 0 is NULL *)
  malloc_thread : Z;          (* malloc(sizeof(pthread_t)), 0 is NULL *)
  init_sink : sink_session;
  debug_formats : Z -> bool;  (* whether [debug] of common.c, called at this
                                 level, formats its arguments (its verbosity
                                 decides) *)
  reply_strdup : string -> option string   (* strdup, None is NULL *)
}.

Inductive init_result :=
  | Died                                            (* die(...) *)
  | Undefined      (* a call whose behaviour C leaves undefined was made *)
  | Returned (g : globals) (t : trace) (rc : Z).

(** [if (name == NULL) name = strdup(default)]. *)
Definition strdup_if_null (env : init_env) (o : option string) (d : string)
  : option string :=
  match o with Some s => Some s | None => reply_strdup env d end.

Definition override {A} (o : option A) (old : A) : A :=
  match o with Some v => v | None => old end.

(** [open_client_if_necessary_thread = ...]: NULL or not. *)
Definition set_poller_started (g : globals) (b : bool) : globals :=
  mk_globals (heap g) (audio_lmb g) (audio_umb g) (audio_toq g) (audio_eoq g)
    (audio_occupancy g) (latest_left_latency_range g) (latest_right_latency_range g)
    (time_of_latest_transfer g) (client_is_open g) (client g) (sample_rate g)
    (jack_latency g) b (config g).

Section JackInit.

(** [parse_general_audio_options] of common.c reads the "general" stanza
    into [config]; it is a parameter here. *)
Variable parse_general_audio_options : config_t -> config_t.

(** The two floating-point settings of the backend buffer and the
    registration of the error and info callbacks have no part in what
    follows and are left out.  The debug line for an interval out of range
    has the conversion [%s] for the [int value] (its format reads "%sd"):
    formatting it is undefined, so that the call is harmless only when
    [debug] drops the message unformatted. *)
(* int jack_init(int argc, char **argv) *)
Definition jack_init (g : globals) (cfg : option settings) (env : init_env)
  : init_result :=
  let c0 := config g in
  let c1 := mk_config 0 (jack_client_name c0) (jack_left_channel_name c0)
              (jack_right_channel_name c0) 1 (jack_auto_client_disconnect c0) in
  let c2 := parse_general_audio_options c1 in
  let settings_read : option (config_t * trace) :=
    match cfg with
    | Some f =>
        let name := match lookup_client_name f with
                    | Some s => Some s | None => jack_client_name c2 end in
        let left := match lookup_left_channel_name f with
                    | Some s => Some s | None => jack_left_channel_name c2 end in
        let right := match lookup_right_channel_name f with
                     | Some s => Some s | None => jack_right_channel_name c2 end in
        let interval_read : option (Z * trace) :=
          match lookup_auto_client_open_interval f with
          | Some value =>
              if (value <? 0) || (value >? 300) then
                if debug_formats env 1 then None
                else
                  Some (jack_auto_client_open_interval c2,
                        [ev_debug 1 (msg_invalid_interval value
                                       (jack_auto_client_open_interval c2))])
              else Some (value, [])
          | None => Some (jack_auto_client_open_interval c2, [])
          end in
        match interval_read with
        | Some (interval, t) =>
            Some (mk_config (audio_backend_latency_offset c2) name left right
                    interval
                    (override (lookup_auto_client_disconnect f)
                       (jack_auto_client_disconnect c2)), t)
        | None => None
        end
    | None => Some (c2, [])
    end in
  match settings_read with
  | None => Undefined
  | Some (c3, t3) =>
      let c4 := mk_config (audio_backend_latency_offset c3)
                  (strdup_if_null env (jack_client_name c3) "Shairport Sync")
                  (strdup_if_null env (jack_left_channel_name c3) "left")
                  (strdup_if_null env (jack_right_channel_name c3) "right")
                  (jack_auto_client_open_interval c3)
                  (jack_auto_client_disconnect c3) in
      if malloc_buffer env =? 0 then Died
      else
        let g1 := empty_queue (set_config g c4) (malloc_buffer env) in
        let g2 := set_client g1 (client g1) (sample_rate g1) 0 in
        if negb (jack_auto_client_open_interval c4 =? 0) then
          if malloc_thread env =? 0 then
            let '(g3, t, _) :=
              jack_client_open_if_needed (set_poller_started g2 false)
                (init_sink env) in
            Returned g3 (t3 ++ ev_debug 1 msg_no_space_for_thread :: t) 0
          else
            Returned (set_poller_started g2 true) (t3 ++ [ev_pthread_create]) 0
        else
          let '(g3, t, _) := jack_client_open_if_needed g2 (init_sink env) in
          Returned g3 (t3 ++ t) 0
  end.

End JackInit.

(** ** The ring, as the specification reads it *)

(** The address of the byte [off] bytes after the start of the block,
    wrapping at the end of the block. *)
Definition ring_addr (g : globals) (off : Z) : Z :=
  audio_lmb g + off mod buffer_size.

(** The [j]-th byte waiting in the queue, counted from the read cursor. *)
Definition queued_byte (g : globals) (j : Z) : Z :=
  heap g (ring_addr g (audio_toq g - audio_lmb g + j)).

Definition side_offset (side : ift_type) : Z :=
  match side with IFT_frame_left_sample => 0 | IFT_frame_right_sample => 2 end.

(** The 16-bit sample of channel [side] in the [i]-th waiting frame. *)
Definition queued_sample (g : globals) (i : Z) (side : ift_type) : Z :=
  load_short (heap g) (ring_addr g (audio_toq g - audio_lmb g + 4 * i + side_offset side)).

(** The 16-bit sample of channel [side] in the [i]-th frame of a source. *)
Definition source_sample (buf : bytes) (i : Z) (side : ift_type) : Z :=
  load_short buf (4 * i + side_offset side).

(** The free space of the ring, in bytes: [C - occupancy*4]. *)
Definition free_space (g : globals) : Z := buffer_size - audio_occupancy g * 4.

Definition capacity_in_frames : Z := buffer_size / 4.

(** The data-model invariant of the ring; both cursors may rest on the
    upper bound [audio_umb], which the code never wraps eagerly. *)
Record ring_ok (g : globals) : Prop := mk_ring_ok {
  ok_umb : audio_umb g = audio_lmb g + buffer_size;
  ok_toq : audio_lmb g <= audio_toq g <= audio_umb g;
  ok_eoq : audio_lmb g <= audio_eoq g <= audio_umb g;
  ok_toq_aligned : (audio_toq g - audio_lmb g) mod 4 = 0;
  ok_eoq_aligned : (audio_eoq g - audio_lmb g) mod 4 = 0;
  ok_occupancy : 0 <= audio_occupancy g <= capacity_in_frames;
  ok_span : (audio_eoq g - audio_toq g - 4 * audio_occupancy g) mod buffer_size = 0
}.

(** The frames one callback takes from the queue: [min(nframes, occupancy)]. *)
Definition frames_delivered (g : globals) (nframes : Z) : Z :=
  Z.min (audio_occupancy g) nframes.

(** The read cursor after a callback. *)
Definition toq_after (g : globals) (nframes : Z) : Z :=
  if frames_delivered g nframes * 4 <=? audio_umb g - audio_toq g
  then audio_toq g + frames_delivered g nframes * 4
  else audio_lmb g
       + (frames_delivered g nframes - (audio_umb g - audio_toq g) / 4) * 4.

(** A push that respects the contract of the specification. *)
Definition push_fits (g : globals) (samples : Z) : Prop :=
  0 <= samples /\ samples * 4 <= free_space g.

(** ** Sequences of operations *)

Inductive op :=
  | Push (buf : bytes) (samples : Z)
  | Pull (sink : sink_clock) (left_buffer right_buffer : frame_buffer) (nframes : Z).

Definition step (g : globals) (o : op) : globals :=
  match o with
  | Push buf samples => fst (play g buf samples)
  | Pull sink l r nframes => cb_globals (jack_stream_write_cb g sink l r nframes)
  end.

Definition run (g : globals) (ops : list op) : globals := fold_left step ops g.

(** Arguments within their C types. *)
Definition well_typed (o : op) : Prop :=
  match o with
  | Push _ samples => is_int samples
  | Pull _ _ _ nframes => is_nframes nframes
  end.

(** Every push of the sequence fits the free space it meets. *)
Fixpoint admissible (g : globals) (ops : list op) : Prop :=
  match ops with
  | [] => True
  | o :: rest =>
      well_typed o
      /\ match o with Push _ samples => push_fits g samples | Pull _ _ _ _ => True end
      /\ admissible (step g o) rest
  end.

(** ** The delay estimate, as the specification reads it *)

Definition average (r : jack_latency_range_t) : Z := (range_min r + range_max r) / 2.

(** Steps 1 to 4 of [estimate_delay_frames], over unbounded integers; the
    time is in 32.32 fixed point, so that the fixed-point product is the
    floor of [elapsed * 44100 / 2^32]. *)
Definition estimate_delay_frames (left right : jack_latency_range_t)
    (occupancy transfer_time now : Z) : Z :=
  let base_latency := if average left =? 0 then average right else average left in
  let elapsed := now - transfer_time in
  let frames_since_snapshot := (elapsed * 44100) / 2 ^ 32 in
  base_latency + occupancy - frames_since_snapshot.

(** The values [jack_delay] reads are within the range in which none of
    its fixed-width operations wraps: the two sums of a latency range fit
    32 bits, the occupancy is far below 2^62, and the product of the
    elapsed time by 44100 fits 64 bits. *)
Definition delay_in_range (g : globals) (time_now : Z) : Prop :=
  let l := latest_left_latency_range g in
  let r := latest_right_latency_range g in
  (0 <= range_min l /\ 0 <= range_max l /\ range_min l + range_max l < 2 ^ 32)
  /\ (0 <= range_min r /\ 0 <= range_max r /\ range_min r + range_max r < 2 ^ 32)
  /\ 0 <= audio_occupancy g < 2 ^ 62
  /\ - 2 ^ 63 <= (time_now - time_of_latest_transfer g) * 44100 < 2 ^ 63.

(** ** Values of floats *)

(** The rational a finite float stands for. *)
Definition float_value (x : spec_float) : option Q :=
  match x with
  | S754_zero _ => Some 0%Q
  | S754_finite s m e =>
      let v := (if 0 <=? e then inject_Z (Z.pos m * 2 ^ e)
                else (Z.pos m # Z.to_pos (2 ^ (- e))))%Q in
      Some (if s then Qopp v else v)
  | _ => None
  end.

Definition float_one : spec_float := S754_finite false 8388608 (-23).        (* 1.0f *)
Definition float_minus_one : spec_float := S754_finite true 8388608 (-23).   (* -1.0f *)

(** ** Checking the converter over all 16-bit samples *)

(** [-1.0f <= x <= 1.0f], by comparison of floats. *)
Definition within_unit (x : spec_float) : bool :=
  SFleb float_minus_one x && SFleb x float_one.

(** The float [c] delivered for [sample] stands for a rational in [-1, 1]
    that is the quotient by 32767 of a non-negative sample, up to the
    rounding of binary32 (half a unit in the last place below 1, 2^-25), and
    exactly the quotient by 32768 of a negative sample. *)
Definition value_ok (sample : Z) (c : spec_float) : bool :=
  match float_value c with
  | Some v =>
      Qle_bool (-1) v && Qle_bool v 1
      && (if sample >=? 0
          then Qle_bool (Qabs (v - (sample # 32767))) (1 # 33554432)
          else Qeq_bool v (sample # 32768))
  | None => false
  end.

Definition convert_ok (sample : Z) : bool :=
  let c := convert sample in within_unit c && value_ok sample c.

(** [check] holds of [lo], [lo + 1], ..., [lo + n - 1]. *)
Fixpoint check_range (check : Z -> bool) (n : nat) (lo : Z) : bool :=
  match n with
  | O => true
  | S n' => check lo && check_range check n' (lo + 1)
  end.

(** ** Concrete states and inputs, for the examples *)

Module Examples.

(** The globals when the program starts: static storage, all zero. *)
Definition boot : globals :=
  mk_globals (fun _ => 0) 0 0 0 0 0 (mk_range 0 0) (mk_range 0 0) 0 0 0 0 0 false
    (mk_config 0 None None None 0 0).

Definition healthy_sink : sink_session := mk_session 1 44100 0 0.
Definition fast_sink : sink_session := mk_session 1 48000 0 0.

(** A quiet [debug] that formats nothing, and a [strdup] that succeeds. *)
Definition env : init_env :=
  mk_init_env 4096 8192 healthy_sink (fun _ => false) (fun s => Some s).

(** No "general" stanza: [parse_general_audio_options] changes nothing. *)
Definition no_general_options (c : config_t) : config_t := c.

(** The ring after [jack_init], its block at address 4096. *)
Definition fresh : globals := empty_queue boot 4096.

(** Two sources of bytes. *)
Definition ramp : bytes := fun i => i mod 251.
Definition ones : bytes := fun _ => 255.

Definition clock_at (now : Z) : sink_clock :=
  mk_clock (fun p => match p with left_port => mk_range 64 128
                             | right_port => mk_range 32 96 end) now.

(** An output buffer with stale contents. *)
Definition stale : frame_buffer := fun _ => S754_nan.

Definition initialised : init_result := jack_init no_general_options boot None env.

Definition initial_globals : globals :=
  match initialised with Returned g _ _ => g | _ => boot end.

Definition initial_trace : trace :=
  match initialised with Returned _ t _ => t | _ => [] end.

(** The ring filled to its capacity by one push. *)
Definition full : globals := fst (play fresh ramp 176400).

(** A session within the contract: two pushes around a pull. *)
Definition session : list op :=
  [Push ramp 1000; Pull (clock_at 5) stale stale 256; Push ones 175000].

(** Both cursors one frame before the end of the block, the queue empty:
    all but one frame of the capacity pushed, then pulled. *)
Definition drain : list op :=
  [Push ramp 176399; Pull (clock_at 3) stale stale 176399].

Definition near_end : globals := run fresh drain.

(** The globals after a transfer at time 1000: 1000 frames pushed, 256
    pulled. *)
Definition after_transfer : globals :=
  cb_globals (jack_stream_write_cb (fst (play fresh ramp 1000)) (clock_at 1000)
                stale stale 256).

(** A session that pushes one frame more than the ring holds. *)
Definition overrun : list op := [Push ramp 176400; Push ones 1].

End Examples.

(** * The rest of the driver *)

(** ** jack_close, jack_stop, jack_deinit *)

Inductive teardown_message :=
  | msg_error_deactivating      (* "Error deactivating jack client" *)
  | msg_error_closing.          (* "Error closing jack client" *)

Inductive teardown_event :=
  | td_lock (m : mutex)
  | td_unlock (m : mutex)
  | td_deactivate
  | td_client_close
  | td_debug (level : Z) (msg : teardown_message)
  | td_pthread_cancel
  | td_free.

(** What the Sink answers while a client is closed. *)
Record sink_teardown := mk_teardown {
  reply_deactivate : Z;      (* jack_deactivate *)
  reply_client_close : Z     (* jack_client_close *)
}.

(* void jack_close(void) *)
Definition jack_close (g : globals) (sink : sink_teardown)
  : globals * list teardown_event :=
  if negb (client_is_open g =? 0) then
    (set_client g (client g) (sample_rate g) 0,
     [td_lock client_mutex; td_deactivate]
     ++ (if negb (reply_deactivate sink =? 0)
         then [td_debug 1 msg_error_deactivating] else [])
     ++ [td_client_close]
     ++ (if negb (reply_client_close sink =? 0)
         then [td_debug 1 msg_error_closing] else [])
     ++ [td_unlock client_mutex])
  else (g, [td_lock client_mutex; td_unlock client_mutex]).

(* void jack_stop(void) *)
Definition jack_stop (g : globals) (sink : sink_teardown)
  : globals * list teardown_event :=
  if negb (jack_auto_client_disconnect (config g) =? 0) then jack_close g sink
  else (g, []).

(** [poller_started] stands for [open_client_if_necessary_thread] not
    being NULL; [free] does not reset the pointer. *)
(* void jack_deinit() *)
Definition jack_deinit (g : globals) (sink : sink_teardown)
  : globals * list teardown_event :=
  let '(g', t) := jack_close g sink in
  if poller_started g' then (g', t ++ [td_pthread_cancel; td_free]) else (g', t).

(** ** jack_is_running *)

(* int jack_is_running() *)
Definition jack_is_running (g : globals) : Z * trace :=
  let reply := -1 in
  if negb (client_is_open g =? 0) then
    (0, [ev_get_latency_range left_port; ev_get_latency_range right_port])
  else (reply, []).

(** ** default_jack_set_latency_callback *)

Inductive jack_latency_callback_mode_t := JackCaptureLatency | JackPlaybackLatency.

Record latency_cb_result := mk_latency_cb {
  lcb_globals : globals;
  lcb_b_latency : option Z;   (* the local [b_latency], when it is computed *)
  lcb_printed : option Z      (* what the debug line of level 1 prints *)
}.

Definition set_jack_latency (g : globals) (v : Z) : globals :=
  mk_globals (heap g) (audio_lmb g) (audio_umb g) (audio_toq g) (audio_eoq g)
    (audio_occupancy g) (latest_left_latency_range g) (latest_right_latency_range g)
    (time_of_latest_transfer g) (client_is_open g) (client g) (sample_rate g)
    v (poller_started g) (config g).

(* void default_jack_set_latency_callback(jack_latency_callback_mode_t mode, void *arg) *)
Definition default_jack_set_latency_callback (g : globals)
    (mode : jack_latency_callback_mode_t)
    (ranges : port -> jack_latency_range_t) : latency_cb_result :=
  match mode with
  | JackPlaybackLatency =>
      let left_latency_range := ranges left_port in
      let right_latency_range := ranges right_port in
      let b_latency :=
        to_nframes (range_min left_latency_range + range_max left_latency_range) / 2 in
      let b_latency :=
        if b_latency =? 0 then
          to_nframes (range_min right_latency_range + range_max right_latency_range) / 2
        else b_latency in
      let g' := set_jack_latency g 0 in
      mk_latency_cb g' (Some b_latency) (Some (jack_latency g'))
  | JackCaptureLatency => mk_latency_cb g None None
  end.

(** ** open_client_if_necessary_thread_function *)

(** The loop of the poller over the turns for which the answers of the
    Sink are given, one per turn; each turn ends in [sleep]. *)
Fixpoint open_client_if_necessary_thread_function (sinks : list sink_session)
    (g : globals) : globals * trace :=
  match sinks with
  | [] => (g, [])
  | sink :: rest =>
      if negb (jack_auto_client_open_interval (config g) =? 0) then
        let '(g1, t1) := open_client_if_necessary_tick g sink in
        let '(g2, t2) := open_client_if_necessary_thread_function rest g1 in
        (g2, t1 ++ t2)
      else (g, [])
  end.

(** ** Any sequence of calls into the driver *)

Inductive call :=
  | call_play (buf : bytes) (samples : Z)
  | call_callback (sink : sink_clock) (left_buffer right_buffer : frame_buffer)
      (nframes : Z)
  | call_flush
  | call_start (sink : sink_session)
  | call_stop (sink : sink_teardown)
  | call_close (sink : sink_teardown)
  | call_tick (sink : sink_session)
  | call_latency_callback (mode : jack_latency_callback_mode_t)
      (ranges : port -> jack_latency_range_t).

Definition do_call (g : globals) (c : call) : globals :=
  match c with
  | call_play buf samples => fst (play g buf samples)
  | call_callback sink l r nframes => cb_globals (jack_stream_write_cb g sink l r nframes)
  | call_flush => jack_flush g
  | call_start sink => fst (jack_start g sink)
  | call_stop sink => fst (jack_stop g sink)
  | call_close sink => fst (jack_close g sink)
  | call_tick sink => fst (open_client_if_necessary_tick g sink)
  | call_latency_callback mode ranges =>
      lcb_globals (default_jack_set_latency_callback g mode ranges)
  end.

Definition do_calls (g : globals) (calls : list call) : globals :=
  fold_left do_call calls g.

(** Every [play] of the sequence is within its types and fits the free
    space it meets; every callback asks for a 32-bit number of frames. *)
Fixpoint calls_in_contract (g : globals) (calls : list call) : Prop :=
  match calls with
  | [] => True
  | c :: rest =>
      match c with
      | call_play _ samples => push_fits g samples
      | call_callback _ _ _ nframes => is_nframes nframes
      | _ => True
      end
      /\ calls_in_contract (do_call g c) rest
  end.

(** ** Counting frames along a sequence of pushes and pulls *)

Fixpoint frames_pushed (ops : list op) : Z :=
  match ops with
  | [] => 0
  | Push _ samples :: rest => samples + frames_pushed rest
  | Pull _ _ _ _ :: rest => frames_pushed rest
  end.

Fixpoint frames_pulled (g : globals) (ops : list op) : Z :=
  match ops with
  | [] => 0
  | o :: rest =>
      match o with
      | Push _ _ => 0
      | Pull _ _ _ nframes => frames_delivered g nframes
      end + frames_pulled (step g o) rest
  end.

(** ** The Sink, all of whose answers let a client open *)

Definition healthy (sink : sink_session) : bool :=
  negb (reply_client_open sink =? 0)
  && (to_nframes (reply_sample_rate sink) =? 44100)
  && (reply_set_latency_callback sink =? 0)
  && (reply_activate sink =? 0).

Definition count_client_open (t : trace) : nat :=
  List.length (filter (fun e => match e with ev_client_open => true | _ => false end) t).

(** ** The converter as a function to the rationals *)

Definition sample_value (sample : Z) : Q :=
  match float_value (convert sample) with Some v => v | None => 0 end.

(** [sample_value] is above [prev] at [lo] and strictly increasing over
    [lo], [lo + 1], ..., [lo + n - 1]. *)
Fixpoint check_increasing (n : nat) (lo : Z) (prev : Q) : bool :=
  match n with
  | O => true
  | S n' =>
      let v := sample_value lo in
      negb (Qle_bool v prev) && check_increasing n' (lo + 1) v
  end.

(** ** The faulty debug line of jack_init *)

(** [jack_init] reaches the debug line with [%s] for an [int] and [debug]
    formats it: the settings give an interval out of range and [debug]
    formats at level 1. *)
Definition faulty_debug_formatted (cfg : option settings) (env : init_env) : bool :=
  match cfg with
  | Some f =>
      match lookup_auto_client_open_interval f with
      | Some value => ((value <? 0) || (value >? 300)) && debug_formats env 1
      | None => false
      end
  | None => false
  end.

(** ** More states and inputs, for the examples *)

Module Scenarios.

(** As [Examples.env], with a [debug] that formats every message. *)
Definition verbose_env : init_env :=
  mk_init_env 4096 8192 Examples.healthy_sink (fun _ => true) (fun s => Some s).

(** A settings file that only gives the interval. *)
Definition interval_only (value : Z) : settings :=
  mk_settings None None None (Some value) None.

(** The clock fourteen hours after the start, in 32.32 fixed point. *)
Definition fourteen_hours : Z := 50400 * 2 ^ 32.


Definition polite : sink_teardown := mk_teardown 0 0.
Definition stubborn : sink_teardown := mk_teardown 1 1.

(** The globals after [jack_init] and one turn of the poller with a
    healthy Sink. *)
Definition opened : globals :=
  fst (open_client_if_necessary_tick Examples.initial_globals Examples.healthy_sink).

(** A ring with 1000 frames queued. *)
Definition loaded : globals := fst (play Examples.fresh Examples.ramp 1000).

Definition no_sink : sink_session := mk_session 0 0 0 0.

End Scenarios.

(** * Proofs *)

(** ** Machine integers *)

Lemma buffer_size_eq : buffer_size = 705600.
Proof. reflexivity. Qed.

Lemma capacity_in_frames_eq : capacity_in_frames = 176400.
Proof. reflexivity. Qed.

Lemma to_size_t_small z : 0 <= z < 2 ^ 64 -> to_size_t z = z.
Proof. intros H. unfold to_size_t, to_unsigned. apply Z.mod_small. exact H. Qed.

Lemma to_nframes_small z : 0 <= z < 2 ^ 32 -> to_nframes z = z.
Proof. intros H. unfold to_nframes, to_unsigned. apply Z.mod_small. exact H. Qed.

Lemma to_signed_small w z :
  0 < w -> - 2 ^ (w - 1) <= z < 2 ^ (w - 1) -> to_signed w z = z.
Proof.
  intros Hw H. unfold to_signed.
  assert (E : 2 ^ w = 2 * 2 ^ (w - 1)).
  { replace w with (Z.succ (w - 1)) at 1 by lia. apply Z.pow_succ_r. lia. }
  rewrite Z.mod_small; lia.
Qed.

Lemma to_int_small z : is_int z -> to_int z = z.
Proof. intros H. apply to_signed_small; [lia | exact H]. Qed.

Lemma to_int64_small z : is_int64 z -> to_int64 z = z.
Proof. intros H. apply to_signed_small; [lia | exact H]. Qed.

Lemma to_long_size_t z : to_long (to_size_t z) = to_long z.
Proof.
  unfold to_long, to_size_t, to_signed, to_unsigned.
  replace (64 - 1) with 63 by reflexivity.
  rewrite Zplus_mod_idemp_l. reflexivity.
Qed.

(** ** play *)

Ltac split_bools :=
  repeat match goal with
    | |- context [(?a >=? ?b)] => rewrite (Z.geb_leb a b)
    | |- context [(?a <=? ?b)] => destruct (Z.leb_spec a b)
    | |- context [(?a <? ?b)] => destruct (Z.ltb_spec a b)
    | |- context [(?a =? ?b)] => destruct (Z.eqb_spec a b)
    end;
  cbn [andb orb negb].

Ltac ring_arith :=
  pose proof buffer_size_eq; pose proof capacity_in_frames_eq;
  repeat match goal with
    | H : context [buffer_size] |- _ => revert H
    | H : context [capacity_in_frames] |- _ => revert H
    end;
  rewrite ?buffer_size_eq, ?capacity_in_frames_eq; intros;
  Z.div_mod_to_equations; lia.

Lemma play_returns_zero g buf samples : snd (play g buf samples) = 0.
Proof. unfold play. destruct (_ >=? _); reflexivity. Qed.

Lemma play_occupancy g buf samples :
  audio_occupancy (fst (play g buf samples)) = to_size_t (audio_occupancy g + samples).
Proof. unfold play. destruct (_ >=? _); reflexivity. Qed.

Lemma play_toq g buf samples : audio_toq (fst (play g buf samples)) = audio_toq g.
Proof. unfold play. destruct (_ >=? _); reflexivity. Qed.

Lemma play_lmb g buf samples : audio_lmb (fst (play g buf samples)) = audio_lmb g.
Proof. unfold play. destruct (_ >=? _); reflexivity. Qed.

Lemma play_umb g buf samples : audio_umb (fst (play g buf samples)) = audio_umb g.
Proof. unfold play. destruct (_ >=? _); reflexivity. Qed.

Section PlayWithinBlock.

Variables (g : globals) (buf : bytes) (samples : Z).
Hypothesis Humb : audio_umb g = audio_lmb g + buffer_size.
Hypothesis Heoq : audio_lmb g <= audio_eoq g <= audio_umb g.
Hypothesis Hsamples : 0 <= samples.
Hypothesis Hblock : samples * 4 <= buffer_size.

Lemma bytes_to_transfer_eq : to_size_t (to_int (samples * 2 * 2)) = samples * 4.
Proof.
  pose proof buffer_size_eq as E. pose proof Hblock as Hb. rewrite E in Hb.
  rewrite to_int_small by (unfold is_int; lia).
  rewrite to_size_t_small; lia.
Qed.

Lemma space_to_end_eq :
  to_size_t (audio_umb g - audio_eoq g) = audio_umb g - audio_eoq g.
Proof.
  pose proof buffer_size_eq as E. pose proof Humb as Hu. rewrite E in Hu.
  apply to_size_t_small. lia.
Qed.

(** Where the write cursor lands: the old offset plus the bytes, modulo
    the size of the block, and never on the lower bound after a wrap. *)
Lemma play_eoq :
  let e' := audio_eoq (fst (play g buf samples)) in
  audio_lmb g <= e' <= audio_umb g
  /\ (e' - audio_eoq g - samples * 4) mod buffer_size = 0.
Proof.
  unfold play. rewrite bytes_to_transfer_eq, space_to_end_eq.
  split_bools; cbn [fst audio_eoq set_queue]; split; ring_arith.
Qed.

(** The heap after the copy, byte by byte over the block. *)
Lemma play_heap x :
  0 <= x < buffer_size ->
  heap (fst (play g buf samples)) (audio_lmb g + x) =
    let d := (x - (audio_eoq g - audio_lmb g)) mod buffer_size in
    if d <? samples * 4 then buf d else heap g (audio_lmb g + x).
Proof.
  intros Hx. unfold play. rewrite bytes_to_transfer_eq, space_to_end_eq.
  cbv zeta.
  remember ((x - (audio_eoq g - audio_lmb g)) mod buffer_size) as d eqn:Hd.
  rewrite buffer_size_eq in *.
  destruct (Z.geb_spec (audio_umb g - audio_eoq g) (samples * 4)) as [Hge | Hlt];
    cbn [fst heap set_queue]; unfold memcpy, advance.
  - split_bools; try reflexivity; try (f_equal; ring_arith); exfalso; ring_arith.
  - rewrite (to_size_t_small (samples * 4 - (audio_umb g - audio_eoq g))) by lia.
    split_bools; try reflexivity; try (f_equal; ring_arith); exfalso; ring_arith.
Qed.

End PlayWithinBlock.

(** ** The loops of the callback *)

Lemma deinterleave_loop_spec n : forall h ifp fp out j,
  deinterleave_loop n h ifp fp out j =
    if (fp <=? j) && (j <? fp + Z.of_nat n)
    then convert (load_short h (ifp + 4 * (j - fp)))
    else out j.
Proof.
  induction n as [| n IH]; intros h ifp fp out j.
  - cbn [deinterleave_loop]. split_bools; try reflexivity. lia.
  - cbn [deinterleave_loop]. rewrite IH. unfold store.
    rewrite Nat2Z.inj_succ.
    split_bools; try reflexivity; try lia.
    + do 2 f_equal. lia.
    + subst j. do 2 f_equal. lia.
Qed.

Lemma deinterleave_spec h p out fp n side j :
  0 <= n < 2 ^ 32 ->
  deinterleave_and_convert_stream h p out fp n side j =
    if (fp <=? j) && (j <? fp + n)
    then convert (load_short h (p + side_offset side + 4 * (j - fp)))
    else out j.
Proof.
  intros Hn. unfold deinterleave_and_convert_stream.
  rewrite deinterleave_loop_spec, to_nframes_small by exact Hn.
  rewrite Z2Nat.id by lia.
  destruct side; cbn [side_offset]; rewrite ?Z.add_0_r; reflexivity.
Qed.

Lemma silence_loop_spec n : forall i l r j,
  fst (silence_loop n i l r) j =
    (if (i <=? j) && (j <? i + Z.of_nat n) then float_zero else l j)
  /\ snd (silence_loop n i l r) j =
    (if (i <=? j) && (j <? i + Z.of_nat n) then float_zero else r j).
Proof.
  induction n as [| n IH]; intros i l r j.
  - cbn [silence_loop fst snd]. split_bools; try lia; split; reflexivity.
  - cbn [silence_loop]. rewrite Nat2Z.inj_succ.
    destruct (IH (i + 1) (store l i float_zero) (store r i float_zero) j) as [El Er].
    rewrite El, Er. unfold store.
    split_bools; try lia; split; reflexivity.
Qed.

(** ** jack_stream_write_cb *)

Section Callback.

Variables (g : globals) (sink : sink_clock) (L R : frame_buffer) (nframes : Z).
Hypothesis Hok : ring_ok g.
Hypothesis Hn : is_nframes nframes.

Local Abbreviation frames_delivered := (frames_delivered g nframes).
Local Abbreviation toq_after := (toq_after g nframes).

Lemma frames_we_can_transfer_eq :
  (if audio_occupancy g <? nframes then audio_occupancy g else nframes) = frames_delivered.
Proof. unfold frames_delivered. split_bools; lia. Qed.

Lemma frames_delivered_bounds : 0 <= frames_delivered <= capacity_in_frames.
Proof.
  destruct Hok. unfold frames_delivered, is_nframes in *. lia.
Qed.

Lemma first_portion_eq :
  to_size_t (Z.quot (audio_umb g - audio_toq g) (2 * 2))
  = (audio_umb g - audio_toq g) / 4.
Proof.
  destruct Hok. rewrite Z.quot_div_nonneg by lia.
  change (2 * 2) with 4. apply to_size_t_small. ring_arith.
Qed.

Lemma cb_outputs :
  let r := jack_stream_write_cb g sink L R nframes in
  forall j,
    cb_left r j =
      (if (0 <=? j) && (j <? frames_delivered)
       then convert (queued_sample g j IFT_frame_left_sample)
       else if (frames_delivered <=? j) && (j <? nframes) then float_zero else L j)
    /\ cb_right r j =
      (if (0 <=? j) && (j <? frames_delivered)
       then convert (queued_sample g j IFT_frame_right_sample)
       else if (frames_delivered <=? j) && (j <? nframes) then float_zero else R j).
Proof.
  pose proof frames_delivered_bounds as Hf. pose proof first_portion_eq as Hfirst.
  destruct Hok.
  unfold is_nframes in Hn. rewrite capacity_in_frames_eq in *.
  assert (Hfn : frames_delivered <= nframes) by (unfold frames_delivered; lia).
  intros r j. subst r. unfold jack_stream_write_cb.
  rewrite frames_we_can_transfer_eq.
  rewrite (to_size_t_small (frames_delivered * 2 * 2)) by lia.
  rewrite (to_size_t_small (audio_umb g - audio_toq g)) by ring_arith.
  rewrite (to_nframes_small frames_delivered) by lia.
  rewrite Hfirst.
  set (first := (audio_umb g - audio_toq g) / 4) in *.
  assert (Hfirst_bounds : 0 <= first <= 176400) by (subst first; ring_arith).
  destruct (Z.leb_spec (frames_delivered * 2 * 2) (audio_umb g - audio_toq g)) as [Hrow | Htwo].
  - cbv beta iota zeta.
    match goal with |- context [silence_loop ?n ?i ?l ?r] =>
      destruct (silence_loop_spec n i l r j) as [El Er];
      destruct (silence_loop n i l r) end.
    cbn [cb_left cb_right fst snd] in *. rewrite El, Er.
    rewrite Z2Nat.id by lia.
    rewrite !deinterleave_spec by lia.
    unfold queued_sample, ring_addr.
    split; split_bools; try reflexivity; try lia; do 2 f_equal;
      cbn [side_offset]; ring_arith.
  - rewrite (to_size_t_small (frames_delivered - first)) by (subst first; ring_arith).
    assert (Hrest : 0 <= frames_delivered - first) by (subst first; ring_arith).
    destruct (Z.eqb_spec first 0) as [Hz | Hnz]; cbn [negb]; cbv beta iota zeta;
      match goal with |- context [silence_loop ?n ?i ?l ?r] =>
        destruct (silence_loop_spec n i l r j) as [El Er];
        destruct (silence_loop n i l r) end;
      cbn [cb_left cb_right fst snd] in *; rewrite El, Er;
      rewrite Z2Nat.id by lia;
      rewrite !deinterleave_spec by lia;
      unfold queued_sample, ring_addr;
      (split; split_bools; try reflexivity; try lia; do 2 f_equal;
       cbn [side_offset]; subst first; ring_arith).
Qed.

Lemma cb_globals_eq :
  cb_globals (jack_stream_write_cb g sink L R nframes) =
    set_transfer
      (set_queue g (heap g) toq_after (audio_eoq g) (audio_occupancy g - frames_delivered))
      (port_latency_range sink left_port) (port_latency_range sink right_port)
      (absolute_time_in_fp sink).
Proof.
  pose proof frames_delivered_bounds as Hf. pose proof first_portion_eq as Hfirst.
  destruct Hok.
  unfold is_nframes in Hn. rewrite capacity_in_frames_eq in *.
  assert (Hfo : frames_delivered <= audio_occupancy g) by (unfold frames_delivered; lia).
  unfold jack_stream_write_cb, toq_after.
  rewrite frames_we_can_transfer_eq.
  rewrite (to_size_t_small (frames_delivered * 2 * 2)) by lia.
  rewrite (to_size_t_small (audio_umb g - audio_toq g)) by ring_arith.
  rewrite (to_size_t_small (audio_occupancy g - frames_delivered)) by lia.
  rewrite Hfirst.
  set (first := (audio_umb g - audio_toq g) / 4) in *.
  replace (frames_delivered * 2 * 2) with (frames_delivered * 4) by lia.
  destruct (Z.leb_spec (frames_delivered * 4) (audio_umb g - audio_toq g)) as [Hrow | Htwo].
  - cbv beta iota zeta.
    match goal with |- context [silence_loop ?n ?i ?l ?r] =>
      destruct (silence_loop n i l r) end.
    reflexivity.
  - rewrite (to_size_t_small (frames_delivered - first)) by (subst first; ring_arith).
    rewrite (to_size_t_small ((frames_delivered - first) * 2 * 2))
      by (subst first; ring_arith).
    replace ((frames_delivered - first) * 2 * 2) with ((frames_delivered - first) * 4) by lia.
    destruct (negb (first =? 0)); cbv beta iota zeta;
      match goal with |- context [silence_loop ?n ?i ?l ?r] =>
        destruct (silence_loop n i l r) end;
      reflexivity.
Qed.

Lemma cb_ring_ok : ring_ok (cb_globals (jack_stream_write_cb g sink L R nframes)).
Proof.
  rewrite cb_globals_eq.
  pose proof frames_delivered_bounds as Hf.
  assert (Hfo : frames_delivered <= audio_occupancy g) by (unfold frames_delivered; lia).
  destruct Hok. unfold toq_after.
  constructor; cbn [set_transfer set_queue audio_umb audio_lmb audio_toq audio_eoq
                    audio_occupancy]; try assumption;
    split_bools; ring_arith.
Qed.

Lemma cb_occupancy :
  audio_occupancy (cb_globals (jack_stream_write_cb g sink L R nframes))
  = audio_occupancy g - frames_delivered.
Proof. rewrite cb_globals_eq. reflexivity. Qed.

End Callback.

(** ** The invariant of the ring *)

Lemma empty_queue_ok g lmb : ring_ok (empty_queue g lmb).
Proof.
  constructor; cbn [empty_queue audio_umb audio_lmb audio_toq audio_eoq audio_occupancy];
    ring_arith.
Qed.

Lemma play_ring_ok g buf samples :
  ring_ok g -> push_fits g samples -> ring_ok (fst (play g buf samples)).
Proof.
  intros Hok [H0 Hfit]. unfold free_space in Hfit.
  pose proof Hok as Hok'. destruct Hok'.
  assert (Hblock : samples * 4 <= buffer_size) by ring_arith.
  destruct (play_eoq g buf samples ok_umb0 ok_eoq0 H0 Hblock) as [Hrange Hmod].
  cbv zeta in Hrange, Hmod.
  constructor; rewrite ?play_umb, ?play_lmb, ?play_toq, ?play_occupancy; try assumption;
    try (rewrite to_size_t_small by ring_arith); ring_arith.
Qed.

Lemma play_keeps_queue g buf samples j :
  ring_ok g -> push_fits g samples ->
  0 <= j < audio_occupancy g * 4 ->
  queued_byte (fst (play g buf samples)) j = queued_byte g j.
Proof.
  intros Hok [H0 Hfit] Hj. unfold free_space in Hfit. destruct Hok.
  assert (Hblock : samples * 4 <= buffer_size) by ring_arith.
  unfold queued_byte, ring_addr. rewrite play_toq, play_lmb.
  rewrite play_heap by (try assumption; ring_arith).
  cbv zeta. split_bools; [exfalso; ring_arith | reflexivity].
Qed.

Lemma play_appends g buf samples j :
  ring_ok g -> push_fits g samples ->
  0 <= j < samples * 4 ->
  queued_byte (fst (play g buf samples)) (audio_occupancy g * 4 + j) = buf j.
Proof.
  intros Hok [H0 Hfit] Hj. unfold free_space in Hfit. destruct Hok.
  assert (Hblock : samples * 4 <= buffer_size) by ring_arith.
  unfold queued_byte, ring_addr. rewrite play_toq, play_lmb.
  rewrite play_heap by (try assumption; ring_arith).
  cbv zeta. split_bools; [f_equal; ring_arith | exfalso; ring_arith].
Qed.

(** ** Sequences of operations keep the invariant *)

Lemma step_ring_ok g o :
  ring_ok g -> well_typed o ->
  match o with Push _ samples => push_fits g samples | Pull _ _ _ _ => True end ->
  ring_ok (step g o).
Proof.
  intros Hok Ht Hfit. destruct o as [buf samples | sink l r nframes]; cbn [step].
  - apply play_ring_ok; assumption.
  - apply cb_ring_ok; assumption.
Qed.

Lemma run_ring_ok ops : forall g,
  ring_ok g -> admissible g ops -> ring_ok (run g ops).
Proof.
  induction ops as [| o rest IH]; intros g Hok Hadm.
  - exact Hok.
  - destruct Hadm as (Ht & Hfit & Hrest). cbn [run fold_left].
    apply IH; [apply step_ring_ok; assumption | exact Hrest].
Qed.

Lemma jack_client_open_if_needed_queue g sink :
  let g' := fst (fst (jack_client_open_if_needed g sink)) in
  audio_lmb g' = audio_lmb g /\ audio_umb g' = audio_umb g
  /\ audio_toq g' = audio_toq g /\ audio_eoq g' = audio_eoq g
  /\ audio_occupancy g' = audio_occupancy g /\ heap g' = heap g.
Proof.
  unfold jack_client_open_if_needed.
  repeat match goal with |- context [if ?c then _ else _] => destruct c end;
    cbn; repeat split; reflexivity.
Qed.

Lemma ring_ok_empty g lmb :
  audio_lmb g = lmb -> audio_umb g = lmb + buffer_size ->
  audio_toq g = lmb -> audio_eoq g = lmb -> audio_occupancy g = 0 ->
  ring_ok g.
Proof.
  intros E1 E2 E3 E4 E5.
  constructor; rewrite ?E1, ?E2, ?E3, ?E4, ?E5; ring_arith.
Qed.

(** [jack_init], when it returns, leaves an empty, well-formed ring. *)
Lemma jack_init_ring parse g cfg env g0 t rc :
  jack_init parse g cfg env = Returned g0 t rc ->
  ring_ok g0 /\ audio_occupancy g0 = 0 /\ audio_toq g0 = audio_lmb g0
  /\ audio_eoq g0 = audio_lmb g0 /\ rc = 0.
Proof.
  unfold jack_init.
  match goal with
  | |- context [match ?X with Some _ => _ | None => Undefined end] =>
      destruct X as [[c3 t3] |]
  end; [| discriminate].
  destruct (malloc_buffer env =? 0); [discriminate |].
  destruct (negb _); [destruct (malloc_thread env =? 0) |];
    try (match goal with |- context [jack_client_open_if_needed ?a ?b] =>
           pose proof (jack_client_open_if_needed_queue a b) as Hq;
           destruct (jack_client_open_if_needed a b) as [[g3 t'] rc'] end;
         cbv zeta in Hq; cbn [fst] in Hq;
         destruct Hq as (E1 & E2 & E3 & E4 & E5 & _);
         cbn in E1, E2, E3, E4, E5);
    intros H; inversion H; subst; clear H;
    (split; [apply (ring_ok_empty _ (malloc_buffer env)) |]);
    cbn; repeat split; congruence.
Qed.

Lemma admissible_firstn ops : forall g n,
  admissible g ops -> admissible g (firstn n ops).
Proof.
  induction ops as [| o rest IH]; intros g n Hadm.
  - rewrite firstn_nil. exact I.
  - destruct n as [| n]; [exact I |].
    destruct Hadm as (Ht & Hfit & Hrest).
    cbn [firstn admissible]. repeat split; try assumption. apply IH. exact Hrest.
Qed.

(** A push within the free space, on a well-formed ring. *)
Lemma play_within_free_space_queue g buf samples :
  ring_ok g -> push_fits g samples ->
  let g' := fst (play g buf samples) in
  ring_ok g'
  /\ audio_occupancy g' = audio_occupancy g + samples
  /\ (forall j, 0 <= j < samples * 4 ->
        queued_byte g' (audio_occupancy g * 4 + j) = buf j).
Proof.
  intros Hok Hfit g'. subst g'.
  split; [apply play_ring_ok; assumption |].
  split.
  - rewrite play_occupancy. apply to_size_t_small.
    destruct Hok, Hfit. unfold free_space in *. ring_arith.
  - intros j Hj. apply play_appends; assumption.
Qed.

(** ** What every callback does *)

(** What every callback does, whatever the state of the ring. *)
Lemma cb_always g sink L R nframes :
  let r := jack_stream_write_cb g sink L R nframes in
  latest_left_latency_range (cb_globals r) = port_latency_range sink left_port
  /\ latest_right_latency_range (cb_globals r) = port_latency_range sink right_port
  /\ time_of_latest_transfer (cb_globals r) = absolute_time_in_fp sink
  /\ audio_occupancy (cb_globals r)
     = to_size_t (audio_occupancy g
                  - (if audio_occupancy g <? nframes then audio_occupancy g else nframes))
  /\ cb_trace r = [ev_lock buffer_mutex; ev_get_latency_range left_port;
                   ev_get_latency_range right_port; ev_get_absolute_time;
                   ev_unlock buffer_mutex]
  /\ cb_return r = 0.
Proof.
  unfold jack_stream_write_cb.
  destruct (_ <=? _); [| destruct (negb _)]; cbv beta iota zeta;
    match goal with |- context [silence_loop ?n ?i ?l ?r] =>
      destruct (silence_loop n i l r) end;
    repeat split.
Qed.

(** A queued sample is made of two consecutive queued bytes: a sample
    never straddles the end of the block. *)
Lemma queued_sample_bytes g i side :
  ring_ok g ->
  queued_sample g i side =
    to_short (queued_byte g (4 * i + side_offset side) mod 256
              + 256 * (queued_byte g (4 * i + side_offset side + 1) mod 256)).
Proof.
  intros Hok. destruct Hok.
  unfold queued_sample, load_short, queued_byte, ring_addr.
  assert (Hoff : side_offset side = 0 \/ side_offset side = 2)
    by (destruct side; cbn; lia).
  set (off := side_offset side) in *. clearbody off.
  replace (audio_lmb g + (audio_toq g - audio_lmb g + 4 * i + off) mod buffer_size + 1)
    with (audio_lmb g + (audio_toq g - audio_lmb g + (4 * i + off + 1)) mod buffer_size)
    by ring_arith.
  replace (audio_toq g - audio_lmb g + 4 * i + off)
    with (audio_toq g - audio_lmb g + (4 * i + off)) by lia.
  reflexivity.
Qed.

(** ** The delay estimate computes the formula of the specification *)

Lemma jack_delay_estimate g time_now :
  delay_in_range g time_now ->
  jack_delay g time_now =
    (estimate_delay_frames (latest_left_latency_range g) (latest_right_latency_range g)
       (audio_occupancy g) (time_of_latest_transfer g) time_now, 0).
Proof.
  intros ((Hl1 & Hl2 & Hl3) & (Hr1 & Hr2 & Hr3) & Hocc & Hprod).
  cbv zeta in *.
  unfold jack_delay, estimate_delay_frames, average.
  set (l := latest_left_latency_range g) in *.
  set (r := latest_right_latency_range g) in *.
  set (elapsed := time_now - time_of_latest_transfer g) in *.
  rewrite (to_int64_small elapsed) by (unfold is_int64; lia).
  rewrite (to_int64_small (elapsed * 44100)) by (unfold is_int64; lia).
  rewrite Z.shiftr_div_pow2 by lia.
  rewrite !to_nframes_small by lia.
  set (frames := elapsed * 44100 / 2 ^ 32).
  assert (Hframes : - 2 ^ 31 <= frames < 2 ^ 31).
  { subst frames. split.
    - apply Z.div_le_lower_bound; lia.
    - apply Z.div_lt_upper_bound; lia. }
  set (base := if (range_min l + range_max l) / 2 =? 0
               then (range_min r + range_max r) / 2
               else (range_min l + range_max l) / 2).
  assert (Hbase : 0 <= base < 2 ^ 31).
  { subst base. destruct (_ =? _); split;
      try (apply Z.div_pos; lia); apply Z.div_lt_upper_bound; lia. }
  f_equal.
  rewrite to_long_size_t.
  rewrite (to_size_t_small (base + audio_occupancy g)) by lia.
  apply to_signed_small; lia.
Qed.


(** ** Opening the client keeps the configuration *)

Lemma jack_client_open_if_needed_config g sink :
  config (fst (fst (jack_client_open_if_needed g sink))) = config g.
Proof.
  unfold jack_client_open_if_needed.
  repeat match goal with |- context [if ?c then _ else _] => destruct c end;
    reflexivity.
Qed.

(** ** The converter, sample by sample *)

Lemma check_range_spec check n : forall lo z,
  check_range check n lo = true ->
  lo <= z < lo + Z.of_nat n -> check z = true.
Proof.
  induction n as [| n IH]; intros lo z Hall Hz.
  - cbn in Hz. lia.
  - cbn [check_range] in Hall. apply andb_true_iff in Hall. destruct Hall as [H0 Hrest].
    destruct (Z.eq_dec z lo) as [-> | Hne]; [exact H0 |].
    apply (IH (lo + 1)); [exact Hrest | lia].
Qed.

Lemma every_sample_converts_well :
  check_range convert_ok (Z.to_nat 65536) (-32768) = true.
Proof. vm_compute. reflexivity. Qed.

(** ** The example states *)

Lemma fresh_ok : ring_ok Examples.fresh.
Proof. apply empty_queue_ok. Qed.

Lemma full_ok : ring_ok Examples.full.
Proof.
  apply play_ring_ok; [apply fresh_ok |]. split; vm_compute; congruence.
Qed.

Lemma near_end_ok : ring_ok Examples.near_end.
Proof.
  apply run_ring_ok; [apply fresh_ok |].
  cbv [admissible Examples.drain well_typed push_fits is_int is_nframes].
  repeat split; vm_compute; congruence.
Qed.

Lemma after_transfer_in_range time_now :
  0 <= time_now <= 2 ^ 40 -> delay_in_range Examples.after_transfer time_now.
Proof.
  intros H. unfold delay_in_range.
  replace (time_of_latest_transfer Examples.after_transfer) with 1000 by reflexivity.
  replace (audio_occupancy Examples.after_transfer) with 744 by reflexivity.
  cbn. lia.
Qed.

(** * The claims *)

(** ** C1: a push beyond the free space *)

(** C1, as the code has it.  [play] has no free-space check and no
    Overflow result.  What holds is the guarantee for the calls within the
    contract: on a well-formed ring, a call whose byte count does not exceed
    the free space [C - occupancy*4] returns 0, keeps the ring well formed,
    adds its frames to the occupancy, leaves every queued byte as it was and
    queues the bytes of the input right after them. *)
Theorem play_within_free_space_keeps_queue g buf samples :
  ring_ok g -> push_fits g samples ->
  let g' := fst (play g buf samples) in
  snd (play g buf samples) = 0
  /\ ring_ok g'
  /\ audio_occupancy g' = audio_occupancy g + samples
  /\ audio_toq g' = audio_toq g
  /\ (forall j, 0 <= j < audio_occupancy g * 4 -> queued_byte g' j = queued_byte g j)
  /\ (forall j, 0 <= j < samples * 4 ->
        queued_byte g' (audio_occupancy g * 4 + j) = buf j).
Proof.
  intros Hok Hfit g'. subst g'.
  split; [apply play_returns_zero |].
  split; [apply play_ring_ok; assumption |].
  split.
  { rewrite play_occupancy. apply to_size_t_small.
    destruct Hok, Hfit. unfold free_space in *. ring_arith. }
  split; [apply play_toq |].
  split; intros j Hj.
  - apply play_keeps_queue; assumption.
  - apply play_appends; assumption.
Qed.

Lemma play_within_free_space_witness :
  ring_ok Examples.fresh /\ push_fits Examples.fresh 1000
  /\ audio_occupancy (fst (play Examples.fresh Examples.ramp 1000)) = 0 + 1000
  /\ (forall j, 0 <= j < 1000 * 4 ->
        queued_byte (fst (play Examples.fresh Examples.ramp 1000)) (0 * 4 + j)
        = Examples.ramp j).
Proof.
  assert (H1 : ring_ok Examples.fresh) by apply fresh_ok.
  assert (H2 : push_fits Examples.fresh 1000) by (split; vm_compute; congruence).
  split; [exact H1 |]. split; [exact H2 |].
  destruct (play_within_free_space_keeps_queue Examples.fresh Examples.ramp 1000 H1 H2)
    as (_ & _ & Hocc & _ & _ & Happ).
  split; [exact Hocc | exact Happ].
Defined.

(** C1, as stated, fails: on the full ring a push of one frame exceeds the
    free space (0 bytes), yet [play] returns 0, counts the frame, moves the
    write cursor and overwrites the oldest queued bytes. *)
Lemma play_overflow_is_not_rejected :
  let g := Examples.full in
  let r := play g Examples.ones 1 in
  ring_ok g
  /\ free_space g = 0
  /\ snd r = 0
  /\ audio_occupancy g = 176400 /\ audio_occupancy (fst r) = 176401
  /\ audio_eoq (fst r) <> audio_eoq g
  /\ queued_byte g 0 = 0 /\ queued_byte (fst r) 0 = 255.
Proof.
  cbv zeta. split; [apply full_ok |].
  repeat split; vm_compute; congruence.
Qed.

(** ** C2: the occupancy stays within the capacity *)

(** C2, as the code has it.  From the state [jack_init] returns, along every
    sequence of pushes and pulls in which each push is non-negative and fits
    the free space it meets, the occupancy is between 0 and the capacity in
    frames after every operation (that is, at the end of every prefix). *)
Theorem occupancy_within_capacity parse g cfg env g0 t rc ops n :
  jack_init parse g cfg env = Returned g0 t rc ->
  admissible g0 ops ->
  0 <= audio_occupancy (run g0 (firstn n ops)) <= capacity_in_frames.
Proof.
  intros Hinit Hadm.
  apply jack_init_ring in Hinit. destruct Hinit as (Hok & _).
  apply ok_occupancy. apply run_ring_ok; [exact Hok |].
  apply admissible_firstn. exact Hadm.
Qed.

Lemma occupancy_within_capacity_witness :
  admissible Examples.initial_globals Examples.session
  /\ 0 <= audio_occupancy (run Examples.initial_globals (firstn 3 Examples.session))
       <= capacity_in_frames.
Proof.
  assert (H : admissible Examples.initial_globals Examples.session).
  { cbv [admissible Examples.session well_typed push_fits is_int is_nframes].
    repeat split; vm_compute; congruence. }
  split; [exact H |].
  apply (occupancy_within_capacity Examples.no_general_options Examples.boot None
           Examples.env Examples.initial_globals Examples.initial_trace 0
           Examples.session 3 eq_refl H).
Defined.

(** C2, as stated, fails: after [jack_init], a push of the full capacity
    followed by a push of one more frame leaves an occupancy above the
    capacity. *)
Lemma occupancy_exceeds_capacity :
  Examples.initialised
    = Returned Examples.initial_globals Examples.initial_trace 0
  /\ capacity_in_frames = 176400
  /\ audio_occupancy (run Examples.initial_globals Examples.overrun) = 176401.
Proof. repeat split. Qed.

(** ** C3: underflow is filled with silence *)

(** C3.  On a well-formed ring holding [m] frames, a callback asked for
    [k > m] frames returns 0, writes the [m] queued frames, converted, to
    the first [m] slots of the left and of the right buffer, and exact zero
    to the remaining [k - m] slots of both; the queue is then empty. *)
Theorem underflow_filled_with_silence g sink L R k :
  ring_ok g -> is_nframes k -> audio_occupancy g < k ->
  let m := audio_occupancy g in
  let r := jack_stream_write_cb g sink L R k in
  cb_return r = 0
  /\ (forall i, 0 <= i < m ->
        cb_left r i = convert (queued_sample g i IFT_frame_left_sample)
        /\ cb_right r i = convert (queued_sample g i IFT_frame_right_sample))
  /\ (forall i, m <= i < k -> cb_left r i = float_zero /\ cb_right r i = float_zero)
  /\ audio_occupancy (cb_globals r) = 0.
Proof.
  intros Hok Hk Hm m r.
  assert (Hf : frames_delivered g k = m) by (unfold frames_delivered; subst m; lia).
  pose proof (ok_occupancy g Hok) as Hocc.
  split; [apply cb_always |].
  split; [| split].
  - intros i Hi. destruct (cb_outputs g sink L R k Hok Hk i) as [El Er].
    fold r in El, Er. rewrite El, Er, Hf.
    destruct (Z.leb_spec 0 i); [| lia]. destruct (Z.ltb_spec i m); [| lia].
    split; reflexivity.
  - intros i Hi. destruct (cb_outputs g sink L R k Hok Hk i) as [El Er].
    fold r in El, Er. rewrite El, Er, Hf.
    destruct (Z.ltb_spec i m); [lia |]. rewrite andb_false_r.
    destruct (Z.leb_spec m i); [| lia]. destruct (Z.ltb_spec i k); [| lia].
    split; reflexivity.
  - subst r. rewrite cb_occupancy by assumption. lia.
Qed.

Lemma underflow_filled_with_silence_witness :
  let g := fst (play Examples.fresh Examples.ramp 2) in
  let r := jack_stream_write_cb g (Examples.clock_at 7) Examples.stale Examples.stale 5 in
  (ring_ok g /\ is_nframes 5 /\ audio_occupancy g < 5)
  /\ cb_left r 1 = convert (queued_sample g 1 IFT_frame_left_sample)
  /\ cb_right r 4 = float_zero.
Proof.
  cbv zeta.
  assert (H1 : ring_ok (fst (play Examples.fresh Examples.ramp 2))).
  { apply play_ring_ok; [apply fresh_ok | split; vm_compute; congruence]. }
  assert (H2 : is_nframes 5) by (split; vm_compute; congruence).
  assert (H3 : audio_occupancy (fst (play Examples.fresh Examples.ramp 2)) < 5)
    by reflexivity.
  split; [split; [exact H1 | split; [exact H2 | exact H3]] |].
  destruct (underflow_filled_with_silence _ (Examples.clock_at 7) Examples.stale
              Examples.stale 5 H1 H2 H3) as (_ & Hreal & Hzero & _).
  split.
  - apply Hreal. split; vm_compute; congruence.
  - apply Hzero. split; vm_compute; congruence.
Defined.

(** ** C4: the delay estimate *)

(** C4, as the code has it.  As long as no fixed-width operation of
    [jack_delay] wraps (see [delay_in_range]), the delay it reports is [base_latency + occupancy - frames_processed], with
    [base_latency] the average of the left range, or of the right range when
    that of the left is zero, and [frames_processed] the elapsed 32.32
    fixed-point time since the last transfer times 44100; it returns 0. *)
Theorem jack_delay_formula g time_now :
  delay_in_range g time_now ->
  let left := latest_left_latency_range g in
  let right := latest_right_latency_range g in
  let base_latency := if average left =? 0 then average right else average left in
  let frames_processed := (time_now - time_of_latest_transfer g) * 44100 / 2 ^ 32 in
  jack_delay g time_now
  = (base_latency + audio_occupancy g - frames_processed, 0)
  /\ jack_delay g time_now
     = (estimate_delay_frames left right (audio_occupancy g)
          (time_of_latest_transfer g) time_now, 0).
Proof.
  intros Hrange. cbv zeta. split; apply jack_delay_estimate; exact Hrange.
Qed.

Lemma jack_delay_formula_witness :
  delay_in_range Examples.after_transfer (1000 + 2 ^ 31)
  /\ jack_delay Examples.after_transfer (1000 + 2 ^ 31) = (96 + 744 - 22050, 0).
Proof.
  assert (H : delay_in_range Examples.after_transfer (1000 + 2 ^ 31))
    by (apply after_transfer_in_range; lia).
  split; [exact H |].
  exact (proj1 (jack_delay_formula Examples.after_transfer (1000 + 2 ^ 31) H)).
Defined.

(** C4, as stated for every call, fails.  Before the first callback the
    timestamp of the last transfer is 0; with the clock at fourteen hours
    the product of the elapsed time by 44100 no longer fits 64 bits, and
    [jack_delay] reports 2072327296 frames on the empty ring where the
    formula gives -2222640000. *)
Lemma jack_delay_wraps_after_long_silence :
  time_of_latest_transfer Examples.initial_globals = 0
  /\ is_int64 Scenarios.fourteen_hours
  /\ ~ delay_in_range Examples.initial_globals Scenarios.fourteen_hours
  /\ fst (jack_delay Examples.initial_globals Scenarios.fourteen_hours) = 2072327296
  /\ estimate_delay_frames
       (latest_left_latency_range Examples.initial_globals)
       (latest_right_latency_range Examples.initial_globals)
       (audio_occupancy Examples.initial_globals)
       (time_of_latest_transfer Examples.initial_globals)
       Scenarios.fourteen_hours = -2222640000.
Proof.
  split; [reflexivity |].
  split; [split; vm_compute; congruence |].
  split; [| split; reflexivity].
  intros (_ & _ & _ & _ & Hproduct). vm_compute in Hproduct. congruence.
Qed.

(** ** C5: the converter *)

(** C5.  For every signed 16-bit sample the converted float is between
    -1.0 and 1.0; it stands for a rational that is, for a non-negative
    sample, the quotient of the sample by 32767 up to the rounding of
    binary32 (at most 2^-25 away) and, for a negative sample, exactly the
    quotient of the sample by 32768.  The extremes and zero are exact:
    32767 gives 1.0, -32768 gives -1.0 and 0 gives 0.0. *)
Theorem convert_within_unit_range sample :
  is_short sample ->
  within_unit (convert sample) = true
  /\ (exists v : Q,
        float_value (convert sample) = Some v
        /\ (-1 <= v)%Q /\ (v <= 1)%Q
        /\ (0 <= sample -> (Qabs (v - (sample # 32767)) <= 1 # 33554432)%Q)
        /\ (sample < 0 -> (v == sample # 32768)%Q))
  /\ convert 32767 = float_one
  /\ convert (-32768) = float_minus_one
  /\ convert 0 = float_zero.
Proof.
  intros Hs.
  assert (Hok : convert_ok sample = true).
  { apply (check_range_spec convert_ok (Z.to_nat 65536) (-32768));
      [exact every_sample_converts_well | unfold is_short in Hs; lia]. }
  unfold convert_ok in Hok. cbv zeta in Hok.
  apply andb_true_iff in Hok. destruct Hok as [Hunit Hvalue].
  split; [exact Hunit |]. split; [| repeat split].
  unfold value_ok in Hvalue.
  destruct (float_value (convert sample)) as [v |]; [| discriminate].
  apply andb_true_iff in Hvalue. destruct Hvalue as [Hb Hq].
  apply andb_true_iff in Hb. destruct Hb as [Hlo Hhi].
  exists v. split; [reflexivity |].
  split; [apply Qle_bool_iff; exact Hlo |].
  split; [apply Qle_bool_iff; exact Hhi |].
  split; intros Hsign.
  - destruct (Z.geb_spec sample 0); [| lia]. apply Qle_bool_iff. exact Hq.
  - destruct (Z.geb_spec sample 0); [lia |]. apply Qeq_bool_iff. exact Hq.
Qed.

Lemma convert_within_unit_range_witness :
  is_short 12345
  /\ within_unit (convert 12345) = true
  /\ convert 12345 = S754_finite false 12641666 (-25).
Proof.
  assert (H : is_short 12345) by (split; vm_compute; congruence).
  split; [exact H |].
  split; [exact (proj1 (convert_within_unit_range 12345 H)) | reflexivity].
Defined.

(** ** C6: a push split at the end of the block, then a pull *)

(** C6.  On a well-formed, empty ring, push [N] frames, [N] at most the
    capacity, whose bytes do not fit before the end of the block, so that
    [play] copies them in two parts; then pull [N] frames.  The bytes waiting
    in the queue after the push are the bytes of the input, in order, and
    the callback delivers, slot by slot, the conversion of the input's left
    and right samples. *)
Theorem wrapped_push_then_pull g buf N sink L R :
  ring_ok g -> audio_occupancy g = 0 ->
  0 < N <= capacity_in_frames ->
  audio_umb g - audio_eoq g < N * 4 ->
  let g1 := fst (play g buf N) in
  let r := jack_stream_write_cb g1 sink L R N in
  (forall j, 0 <= j < N * 4 -> queued_byte g1 j = buf j)
  /\ (forall i, 0 <= i < N ->
        cb_left r i = convert (source_sample buf i IFT_frame_left_sample)
        /\ cb_right r i = convert (source_sample buf i IFT_frame_right_sample))
  /\ audio_occupancy (cb_globals r) = 0.
Proof.
  intros Hok Hempty HN Hcross g1 r.
  assert (Hfit : push_fits g N).
  { unfold push_fits, free_space. rewrite Hempty. ring_arith. }
  destruct (play_within_free_space_queue g buf N Hok Hfit)
    as (Hok1 & Hocc1 & Happ).
  fold g1 in Hok1, Hocc1, Happ. rewrite Hempty in Hocc1, Happ.
  assert (Hbytes : forall j, 0 <= j < N * 4 -> queued_byte g1 j = buf j).
  { intros j Hj. rewrite <- (Happ j Hj). f_equal. }
  assert (HNn : is_nframes N) by (unfold is_nframes; ring_arith).
  assert (Hf : frames_delivered g1 N = N) by (unfold frames_delivered; lia).
  split; [exact Hbytes |]. split.
  - intros i Hi. destruct (cb_outputs g1 sink L R N Hok1 HNn i) as [El Er].
    fold r in El, Er. rewrite El, Er, Hf.
    destruct (Z.leb_spec 0 i); [| lia]. destruct (Z.ltb_spec i N); [| lia].
    cbn [andb]. rewrite !queued_sample_bytes by exact Hok1.
    unfold source_sample, load_short. cbn [side_offset].
    rewrite !Hbytes by lia.
    split; do 3 f_equal; lia.
  - subst r. rewrite cb_occupancy by assumption. lia.
Qed.

Lemma wrapped_push_then_pull_witness :
  let g1 := fst (play Examples.near_end Examples.ones 3) in
  let r := jack_stream_write_cb g1 (Examples.clock_at 9) Examples.stale Examples.stale 3 in
  (audio_occupancy Examples.near_end = 0
   /\ audio_umb Examples.near_end - audio_eoq Examples.near_end = 4)
  /\ queued_byte g1 11 = Examples.ones 11
  /\ cb_right r 2 = convert (source_sample Examples.ones 2 IFT_frame_right_sample).
Proof.
  cbv zeta.
  assert (H1 : audio_occupancy Examples.near_end = 0) by reflexivity.
  assert (H2 : audio_umb Examples.near_end - audio_eoq Examples.near_end = 4)
    by reflexivity.
  assert (H3 : 0 < 3 <= capacity_in_frames) by (split; vm_compute; congruence).
  assert (H4 : audio_umb Examples.near_end - audio_eoq Examples.near_end < 3 * 4)
    by (rewrite H2; reflexivity).
  split; [split; [exact H1 | exact H2] |].
  destruct (wrapped_push_then_pull Examples.near_end Examples.ones 3
              (Examples.clock_at 9) Examples.stale Examples.stale
              near_end_ok H1 H3 H4) as (Hbytes & Hout & _).
  split.
  - apply Hbytes. split; vm_compute; congruence.
  - apply Hout. split; vm_compute; congruence.
Defined.

(** ** C7: the delay estimate over time *)




(** ** C8: a Sink at the wrong sample rate *)

(** C8.  With the client closed and a Sink that grants a client but runs
    at a rate other than 44100, [jack_client_open_if_needed] returns 0 and
    leaves [client_is_open] at 0; it informs of the wrong speed and never
    calls [jack_activate].  The attempt is not final: the next turn of the
    poller and the next [jack_start] both call it again, and with a Sink now
    at 44100 that accepts the latency callback and the activation the
    client is opened. *)
Theorem wrong_sample_rate_leaves_client_closed g sink :
  client_is_open g = 0 ->
  reply_client_open sink <> 0 ->
  to_nframes (reply_sample_rate sink) <> 44100 ->
  let '(g', t, rc) := jack_client_open_if_needed g sink in
  client_is_open g' = 0 /\ rc = 0
  /\ ~ In ev_activate t
  /\ In (ev_inform (msg_wrong_speed (to_nframes (reply_sample_rate sink)))) t
  /\ (forall sink',
        open_client_if_necessary_tick g' sink'
        = (fst (fst (jack_client_open_if_needed g' sink')),
           ev_debug 1 msg_try_to_open :: snd (fst (jack_client_open_if_needed g' sink')))
        /\ fst (jack_start g' sink') = fst (fst (jack_client_open_if_needed g' sink')))
  /\ (forall sink',
        reply_client_open sink' <> 0 ->
        to_nframes (reply_sample_rate sink') = 44100 ->
        reply_set_latency_callback sink' = 0 ->
        reply_activate sink' = 0 ->
        client_is_open (fst (open_client_if_necessary_tick g' sink')) = 1).
Proof.
  intros Hclosed Hclient Hrate.
  unfold jack_client_open_if_needed at 1.
  rewrite Hclosed. cbn [Z.eqb].
  destruct (Z.eqb_spec (reply_client_open sink) 0) as [| _]; [contradiction |].
  destruct (Z.eqb_spec (to_nframes (reply_sample_rate sink)) 44100) as [| _];
    [contradiction |].
  cbn [negb].
  set (g' := set_client g _ _ 0).
  assert (Hclosed' : client_is_open g' = 0) by reflexivity.
  split; [reflexivity |]. split; [reflexivity |]. split; [| split; [| split]].
  - cbn. intros H. repeat destruct H as [H | H]; try discriminate H; exact H.
  - cbn. tauto.
  - intros sink'. unfold open_client_if_necessary_tick, jack_start.
    rewrite Hclosed'. cbn [Z.eqb].
    destruct (jack_client_open_if_needed g' sink') as [[g'' t''] rc''].
    split; [reflexivity |]. destruct (rc'' =? 0); reflexivity.
  - intros sink' Hc Hr Hl Ha. unfold open_client_if_necessary_tick.
    rewrite Hclosed'. cbn [Z.eqb]. unfold jack_client_open_if_needed.
    rewrite Hclosed', Hr, Hl, Ha. cbn [Z.eqb negb].
    destruct (Z.eqb_spec (reply_client_open sink') 0) as [| _]; [contradiction |].
    reflexivity.
Qed.

Lemma wrong_sample_rate_witness :
  (client_is_open Examples.initial_globals = 0
   /\ reply_client_open Examples.fast_sink <> 0
   /\ to_nframes (reply_sample_rate Examples.fast_sink) <> 44100)
  /\ client_is_open
       (fst (fst (jack_client_open_if_needed Examples.initial_globals
                    Examples.fast_sink))) = 0.
Proof.
  assert (H1 : client_is_open Examples.initial_globals = 0) by reflexivity.
  assert (H2 : reply_client_open Examples.fast_sink <> 0) by (vm_compute; congruence).
  assert (H3 : to_nframes (reply_sample_rate Examples.fast_sink) <> 44100)
    by (vm_compute; congruence).
  split; [split; [exact H1 | split; [exact H2 | exact H3]] |].
  pose proof (wrong_sample_rate_leaves_client_closed Examples.initial_globals
                Examples.fast_sink H1 H2 H3) as H.
  destruct (jack_client_open_if_needed Examples.initial_globals Examples.fast_sink)
    as [[g' t] rc].
  exact (proj1 H).
Defined.

(** ** C9: an auto-reconnect interval out of range *)

Section IntervalOutOfRange.

Variable parse_general_audio_options : config_t -> config_t.

(** The "general" stanza has no say on the interval of the jack backend. *)
Hypothesis general_keeps_interval : forall c,
  jack_auto_client_open_interval (parse_general_audio_options c)
  = jack_auto_client_open_interval c.

(** C9, where the code departs from it.  An interval below 0 or above 300
    takes [jack_init] to the debug line whose format has [%s] for the [int]
    value.  When [debug] formats that line the behaviour is undefined, and
    this whatever the allocations answer: [jack_init] does not return
    success.  Only when [debug] drops the line unformatted is the value
    just reported: then, the buffer allocated, [jack_init] returns 0 with
    the interval at its default of 1 second. *)
Theorem interval_out_of_range_hits_faulty_debug g f env value :
  lookup_auto_client_open_interval f = Some value ->
  value < 0 \/ value > 300 ->
  (debug_formats env 1 = true ->
   jack_init parse_general_audio_options g (Some f) env = Undefined)
  /\ (debug_formats env 1 = false -> malloc_buffer env <> 0 ->
      exists g' t,
        jack_init parse_general_audio_options g (Some f) env = Returned g' t 0
        /\ jack_auto_client_open_interval (config g') = 1
        /\ In (ev_debug 1 (msg_invalid_interval value 1)) t
        /\ (malloc_thread env <> 0 -> poller_started g' = true)).
Proof.
  intros Hlookup Hrange.
  assert (Hcmp : (value <? 0) || (value >? 300) = true).
  { apply orb_true_iff. rewrite Z.gtb_ltb.
    destruct Hrange; [left; apply Z.ltb_lt | right; apply Z.ltb_lt]; lia. }
  split.
  - intros Hformats. unfold jack_init. rewrite Hlookup, Hcmp, Hformats. reflexivity.
  - intros Hquiet Hbuf. unfold jack_init.
    rewrite Hlookup, Hcmp, Hquiet, general_keeps_interval.
    cbn [jack_auto_client_open_interval Z.eqb negb].
    destruct (Z.eqb_spec (malloc_buffer env) 0) as [| _]; [contradiction |].
    destruct (Z.eqb_spec (malloc_thread env) 0) as [Hthread | Hthread].
    + match goal with |- context [jack_client_open_if_needed ?a ?b] =>
        pose proof (jack_client_open_if_needed_config a b) as Hc;
        destruct (jack_client_open_if_needed a b) as [[g3 t3] rc3] end.
      cbn [fst] in Hc.
      eexists; eexists. split; [reflexivity |].
      split; [rewrite Hc; reflexivity |].
      split; [cbn; tauto | intros H; contradiction].
    + eexists; eexists. split; [reflexivity |].
      split; [reflexivity |].
      split; [cbn; tauto | reflexivity].
Qed.

End IntervalOutOfRange.

Lemma interval_out_of_range_witness :
  (lookup_auto_client_open_interval (Scenarios.interval_only 301) = Some 301
   /\ (301 < 0 \/ 301 > 300))
  /\ jack_init Examples.no_general_options Examples.boot
       (Some (Scenarios.interval_only 301)) Scenarios.verbose_env
     = Undefined.
Proof.
  assert (H1 : lookup_auto_client_open_interval (Scenarios.interval_only 301)
               = Some 301) by reflexivity.
  assert (H2 : 301 < 0 \/ 301 > 300) by (right; reflexivity).
  split; [split; [exact H1 | exact H2] |].
  exact (proj1 (interval_out_of_range_hits_faulty_debug Examples.no_general_options
                  (fun c => eq_refl) Examples.boot (Scenarios.interval_only 301)
                  Scenarios.verbose_env 301 H1 H2) eq_refl).
Defined.

(** ** C10: every callback refreshes the snapshots and the timestamp *)

(** C10.  Whatever the state and the number of frames asked for, and so
    also when the queue is empty and nothing is delivered, the callback
    stores the latency range of the left and of the right port and the
    current time, all three read between taking and releasing
    [buffer_mutex]; a delay query that follows measures its elapsed time
    from this callback. *)
Theorem callback_refreshes_snapshots g sink L R nframes :
  let r := jack_stream_write_cb g sink L R nframes in
  let g' := cb_globals r in
  latest_left_latency_range g' = port_latency_range sink left_port
  /\ latest_right_latency_range g' = port_latency_range sink right_port
  /\ time_of_latest_transfer g' = absolute_time_in_fp sink
  /\ cb_trace r = [ev_lock buffer_mutex; ev_get_latency_range left_port;
                   ev_get_latency_range right_port; ev_get_absolute_time;
                   ev_unlock buffer_mutex]
  /\ (forall time_now,
        delay_in_range g' time_now ->
        fst (jack_delay g' time_now)
        = estimate_delay_frames (port_latency_range sink left_port)
            (port_latency_range sink right_port) (audio_occupancy g')
            (absolute_time_in_fp sink) time_now)
  /\ (audio_occupancy g = 0 ->
      frames_delivered g nframes <= 0
      /\ time_of_latest_transfer g' = absolute_time_in_fp sink).
Proof.
  intros r g'.
  destruct (cb_always g sink L R nframes) as (El & Er & Et & _ & Htr & _).
  fold r in El, Er, Et, Htr. fold g' in El, Er, Et.
  repeat split; try assumption.
  - intros time_now Hrange. rewrite (jack_delay_estimate g' time_now Hrange).
    cbn [fst]. rewrite El, Er, Et. reflexivity.
  - unfold frames_delivered. lia.
Qed.

Lemma callback_refreshes_snapshots_witness :
  audio_occupancy Examples.fresh = 0
  /\ time_of_latest_transfer
       (cb_globals (jack_stream_write_cb Examples.fresh (Examples.clock_at 77)
                      Examples.stale Examples.stale 64)) = 77.
Proof.
  destruct (callback_refreshes_snapshots Examples.fresh (Examples.clock_at 77)
              Examples.stale Examples.stale 64) as (_ & _ & _ & _ & _ & Hempty).
  split; [reflexivity |].
  destruct (Hempty eq_refl) as [_ Ht]. exact Ht.
Defined.

(** * Further properties of the driver *)

(** ** The queue *)

(** X1.  Whatever the globals were, also after an overrun, [jack_flush]
    leaves a well-formed, empty ring on the same block, and the callback
    that follows delivers silence in every slot of its period. *)
Theorem flush_then_pull_is_silence g sink L R k :
  is_nframes k ->
  let g0 := jack_flush g in
  let r := jack_stream_write_cb g0 sink L R k in
  ring_ok g0 /\ audio_occupancy g0 = 0 /\ audio_lmb g0 = audio_lmb g
  /\ (forall i, 0 <= i < k -> cb_left r i = float_zero /\ cb_right r i = float_zero)
  /\ audio_occupancy (cb_globals r) = 0.
Proof.
  intros Hk g0 r.
  assert (Hok : ring_ok g0) by apply empty_queue_ok.
  assert (Hf : frames_delivered g0 k = 0).
  { unfold frames_delivered, is_nframes in *. cbn. lia. }
  split; [exact Hok |]. split; [reflexivity |]. split; [reflexivity |]. split.
  - intros i Hi. destruct (cb_outputs g0 sink L R k Hok Hk i) as [El Er].
    fold r in El, Er. rewrite El, Er, Hf.
    split; split_bools; try reflexivity; lia.
  - subst r. rewrite cb_occupancy by assumption. rewrite Hf. reflexivity.
Qed.

Lemma flush_then_pull_witness :
  is_nframes 100
  /\ cb_left (jack_stream_write_cb (jack_flush Examples.full) (Examples.clock_at 1)
                Examples.stale Examples.stale 100) 99 = float_zero.
Proof.
  assert (H : is_nframes 100) by (split; vm_compute; congruence).
  split; [exact H |].
  destruct (flush_then_pull_is_silence Examples.full (Examples.clock_at 1)
              Examples.stale Examples.stale 100 H) as (_ & _ & _ & Hz & _).
  assert (A : 0 <= 99 < 100) by (split; vm_compute; congruence).
  exact (proj1 (Hz 99 A)).
Defined.

(** X2.  Conservation: along a sequence of pushes and pulls in which every
    push fits the free space it meets, the occupancy is what it was, plus
    the frames pushed, minus the frames the callbacks took. *)
Theorem occupancy_is_pushed_minus_pulled ops : forall g,
  ring_ok g -> admissible g ops ->
  audio_occupancy (run g ops)
  = audio_occupancy g + frames_pushed ops - frames_pulled g ops.
Proof.
  induction ops as [| o rest IH]; intros g Hok Hadm.
  - cbn. lia.
  - destruct Hadm as (Ht & Hfit & Hrest).
    assert (Hok' : ring_ok (step g o)) by (apply step_ring_ok; assumption).
    change (run g (o :: rest)) with (run (step g o) rest).
    rewrite (IH (step g o) Hok' Hrest).
    destruct o as [buf samples | sink l r nframes]; cbn [frames_pushed frames_pulled step].
    + destruct (play_within_free_space_queue g buf samples Hok Hfit) as (_ & Hocc & _).
      rewrite Hocc. lia.
    + rewrite cb_occupancy by assumption. lia.
Qed.

Lemma occupancy_is_pushed_minus_pulled_witness :
  admissible Examples.fresh Examples.session
  /\ audio_occupancy (run Examples.fresh Examples.session) = 0 + 176000 - 256.
Proof.
  assert (H : admissible Examples.fresh Examples.session).
  { cbv [admissible Examples.session well_typed push_fits is_int is_nframes].
    repeat split; vm_compute; congruence. }
  split; [exact H |].
  exact (occupancy_is_pushed_minus_pulled Examples.session Examples.fresh fresh_ok H).
Defined.

(** X3.  First in, first out: after a push that fits the free space, the
    callback delivers the frames that were already queued, in their order,
    and then the frames of the push, in theirs, wherever the block wraps. *)
Theorem pushed_frames_follow_queued_frames g buf N sink L R k :
  ring_ok g -> push_fits g N -> is_nframes k ->
  let m := audio_occupancy g in
  let r := jack_stream_write_cb (fst (play g buf N)) sink L R k in
  (forall i, 0 <= i < m -> i < k ->
     cb_left r i = convert (queued_sample g i IFT_frame_left_sample)
     /\ cb_right r i = convert (queued_sample g i IFT_frame_right_sample))
  /\ (forall i, m <= i < m + N -> i < k ->
        cb_left r i = convert (source_sample buf (i - m) IFT_frame_left_sample)
        /\ cb_right r i = convert (source_sample buf (i - m) IFT_frame_right_sample)).
Proof.
  intros Hok Hfit Hk m r.
  destruct (play_within_free_space_queue g buf N Hok Hfit) as (Hok1 & Hocc1 & _).
  cbv zeta in Hok1, Hocc1.
  set (g1 := fst (play g buf N)) in *.
  pose proof (ok_occupancy g Hok) as Hm. fold m in Hm, Hocc1.
  destruct Hfit as [HN Hspace].
  assert (Hsamples : forall i side, 0 <= i < m + N -> i < k ->
            (if (0 <=? i) && (i <? frames_delivered g1 k)
             then convert (queued_sample g1 i side) else float_zero)
            = convert (if i <? m then queued_sample g i side
                       else source_sample buf (i - m) side)).
  { intros i side Hi Hik.
    assert (Hf : i < frames_delivered g1 k) by (unfold frames_delivered; lia).
    destruct (Z.leb_spec 0 i); [| lia].
    destruct (Z.ltb_spec i (frames_delivered g1 k)); [| lia].
    cbn [andb]. f_equal.
    assert (Hoff : side_offset side = 0 \/ side_offset side = 2)
      by (destruct side; cbn; lia).
    rewrite (queued_sample_bytes g1 i side Hok1).
    destruct (Z.ltb_spec i m) as [Hold | Hnew].
    - rewrite (queued_sample_bytes g i side Hok).
      unfold g1. rewrite !play_keeps_queue by (try assumption; try split; fold m; lia).
      reflexivity.
    - unfold source_sample, load_short.
      replace (4 * i + side_offset side)
        with (audio_occupancy g * 4 + (4 * (i - m) + side_offset side)) by (fold m; lia).
      replace (audio_occupancy g * 4 + (4 * (i - m) + side_offset side) + 1)
        with (audio_occupancy g * 4 + (4 * (i - m) + side_offset side + 1)) by lia.
      unfold g1. rewrite !play_appends by (try assumption; try split; lia).
      reflexivity. }
  split; intros i Hi Hik;
    destruct (cb_outputs g1 sink L R k Hok1 Hk i) as [El Er]; fold r in El, Er;
    rewrite El, Er;
    assert (Hf : i < frames_delivered g1 k) by (unfold frames_delivered; lia);
    destruct (Z.leb_spec 0 i); try lia;
    destruct (Z.ltb_spec i (frames_delivered g1 k)); try lia; cbn [andb];
    pose proof (Hsamples i IFT_frame_left_sample ltac:(lia) Hik) as Hl;
    pose proof (Hsamples i IFT_frame_right_sample ltac:(lia) Hik) as Hr;
    destruct (Z.leb_spec 0 i) in Hl, Hr; try lia;
    destruct (Z.ltb_spec i (frames_delivered g1 k)) in Hl, Hr; try lia;
    cbn [andb] in Hl, Hr; rewrite Hl, Hr;
    destruct (Z.ltb_spec i m); try lia; split; reflexivity.
Qed.

Lemma loaded_ok : ring_ok Scenarios.loaded.
Proof.
  apply play_ring_ok; [apply fresh_ok | split; vm_compute; congruence].
Qed.

Lemma pushed_frames_follow_queued_frames_witness :
  let r := jack_stream_write_cb (fst (play Scenarios.loaded Examples.ones 3))
             (Examples.clock_at 2) Examples.stale Examples.stale 1003 in
  (push_fits Scenarios.loaded 3 /\ is_nframes 1003)
  /\ cb_left r 999 = convert (queued_sample Scenarios.loaded 999 IFT_frame_left_sample)
  /\ cb_right r 1001 = convert (source_sample Examples.ones 1 IFT_frame_right_sample).
Proof.
  cbv zeta.
  assert (H1 : push_fits Scenarios.loaded 3) by (split; vm_compute; congruence).
  assert (H2 : is_nframes 1003) by (split; vm_compute; congruence).
  split; [split; [exact H1 | exact H2] |].
  destruct (pushed_frames_follow_queued_frames Scenarios.loaded Examples.ones 3
              (Examples.clock_at 2) Examples.stale Examples.stale 1003
              loaded_ok H1 H2) as (Hold & Hnew).
  assert (A1 : 0 <= 999 < audio_occupancy Scenarios.loaded)
    by (split; vm_compute; congruence).
  assert (A2 : audio_occupancy Scenarios.loaded <= 1001
               < audio_occupancy Scenarios.loaded + 3)
    by (split; vm_compute; congruence).
  split.
  - exact (proj1 (Hold 999 A1 eq_refl)).
  - exact (proj2 (Hnew 1001 A2 eq_refl)).
Defined.

(** X4.  A callback takes [f = min(nframes, occupancy)] frames from the
    front of the queue and nothing else: the occupancy drops by [f] and the
    frame that was at position [i + f] is the one at position [i]
    afterwards, byte for byte.  The ring stays well formed. *)
Theorem callback_takes_from_the_front g sink L R k :
  ring_ok g -> is_nframes k ->
  let f := frames_delivered g k in
  let g' := cb_globals (jack_stream_write_cb g sink L R k) in
  ring_ok g'
  /\ audio_occupancy g' = audio_occupancy g - f
  /\ (forall j, queued_byte g' j = queued_byte g (j + 4 * f))
  /\ (forall i side, queued_sample g' i side = queued_sample g (i + f) side).
Proof.
  intros Hok Hk f g'.
  pose proof (frames_delivered_bounds g k Hok Hk) as Hf. fold f in Hf.
  assert (Hfo : f <= audio_occupancy g) by (unfold f, frames_delivered; lia).
  assert (Haddr : forall off,
            ring_addr g' (audio_toq g' - audio_lmb g' + off)
            = ring_addr g (audio_toq g - audio_lmb g + (off + 4 * f))).
  { intros off. subst g'. rewrite cb_globals_eq by assumption.
    unfold ring_addr, toq_after.
    cbn [set_transfer set_queue audio_lmb audio_toq]. fold f.
    destruct Hok. split_bools; ring_arith. }
  split; [apply cb_ring_ok; assumption |].
  split; [apply cb_occupancy; assumption |].
  assert (Hheap : heap g' = heap g)
    by (subst g'; rewrite cb_globals_eq by assumption; reflexivity).
  split.
  - intros j. unfold queued_byte. rewrite Haddr, Hheap. reflexivity.
  - intros i side. unfold queued_sample.
    replace (audio_toq g' - audio_lmb g' + 4 * i + side_offset side)
      with (audio_toq g' - audio_lmb g' + (4 * i + side_offset side)) by lia.
    rewrite Haddr, Hheap. f_equal. f_equal. lia.
Qed.

Lemma callback_takes_from_the_front_witness :
  is_nframes 256
  /\ audio_occupancy (cb_globals (jack_stream_write_cb Scenarios.loaded
                                    (Examples.clock_at 3) Examples.stale
                                    Examples.stale 256))
     = audio_occupancy Scenarios.loaded - frames_delivered Scenarios.loaded 256.
Proof.
  assert (H : is_nframes 256) by (split; vm_compute; congruence).
  split; [exact H |].
  exact (proj1 (proj2 (callback_takes_from_the_front Scenarios.loaded
                         (Examples.clock_at 3) Examples.stale Examples.stale 256
                         loaded_ok H))).
Defined.

(** X5.  The callback writes the slots [0 .. nframes - 1] of the two output
    buffers and no other slot, and it is a reader of the ring: the bytes of
    the heap, the write cursor and the bounds of the block are as before. *)
Theorem callback_writes_only_its_period g sink L R k :
  ring_ok g -> is_nframes k ->
  let r := jack_stream_write_cb g sink L R k in
  (forall j, j < 0 \/ k <= j -> cb_left r j = L j /\ cb_right r j = R j)
  /\ (forall a, heap (cb_globals r) a = heap g a)
  /\ audio_eoq (cb_globals r) = audio_eoq g
  /\ audio_lmb (cb_globals r) = audio_lmb g
  /\ audio_umb (cb_globals r) = audio_umb g.
Proof.
  intros Hok Hk r.
  pose proof (frames_delivered_bounds g k Hok Hk) as Hf.
  assert (Hfk : frames_delivered g k <= k) by (unfold frames_delivered; lia).
  split.
  - intros j Hj. destruct (cb_outputs g sink L R k Hok Hk j) as [El Er].
    fold r in El, Er. rewrite El, Er.
    split; split_bools; try reflexivity; lia.
  - subst r. rewrite cb_globals_eq by assumption. repeat split.
Qed.

Lemma callback_writes_only_its_period_witness :
  is_nframes 256
  /\ cb_left (jack_stream_write_cb Scenarios.loaded (Examples.clock_at 3)
                Examples.stale Examples.stale 256) 256 = Examples.stale 256.
Proof.
  assert (H : is_nframes 256) by (split; vm_compute; congruence).
  split; [exact H |].
  destruct (callback_writes_only_its_period Scenarios.loaded (Examples.clock_at 3)
              Examples.stale Examples.stale 256 loaded_ok H) as (Hout & _).
  assert (A : 256 < 0 \/ 256 <= 256) by (right; vm_compute; congruence).
  exact (proj1 (Hout 256 A)).
Defined.

(** X6.  A push of at most the size of the block writes inside the block
    only, whether it fits the free space or not: every byte of the heap
    below [audio_lmb] or from [audio_umb] on is as before.  The producer
    never moves the read cursor or the bounds of the block. *)
Theorem play_stays_inside_the_block g buf samples :
  ring_ok g -> 0 <= samples -> samples * 4 <= buffer_size ->
  let g' := fst (play g buf samples) in
  (forall a, a < audio_lmb g \/ audio_umb g <= a -> heap g' a = heap g a)
  /\ audio_toq g' = audio_toq g
  /\ audio_lmb g' = audio_lmb g /\ audio_umb g' = audio_umb g
  /\ audio_lmb g <= audio_eoq g' <= audio_umb g.
Proof.
  intros Hok H0 Hblock g'.
  destruct Hok as [ok_umb0 ok_toq0 ok_eoq0 _ _ _ _].
  split; [| split; [apply play_toq | split; [apply play_lmb | split; [apply play_umb |]]]].
  - intros a Ha. subst g'. unfold play.
    rewrite (bytes_to_transfer_eq samples H0 Hblock).
    rewrite (space_to_end_eq g ok_umb0 ok_eoq0).
    destruct (Z.geb_spec (audio_umb g - audio_eoq g) (samples * 4));
      cbn [fst heap set_queue]; unfold memcpy, advance.
    + split_bools; try reflexivity. exfalso. ring_arith.
    + rewrite (to_size_t_small (samples * 4 - (audio_umb g - audio_eoq g)))
        by ring_arith.
      split_bools; try reflexivity; exfalso; ring_arith.
  - exact (proj1 (play_eoq g buf samples ok_umb0 ok_eoq0 H0 Hblock)).
Qed.

Lemma play_stays_inside_the_block_witness :
  (0 <= 176400 /\ 176400 * 4 <= buffer_size)
  /\ heap (fst (play Examples.near_end Examples.ones 176400))
       (audio_umb Examples.near_end)
     = heap Examples.near_end (audio_umb Examples.near_end).
Proof.
  assert (H1 : 0 <= 176400) by (vm_compute; congruence).
  assert (H2 : 176400 * 4 <= buffer_size) by (vm_compute; congruence).
  split; [split; [exact H1 | exact H2] |].
  destruct (play_stays_inside_the_block Examples.near_end Examples.ones 176400
              near_end_ok H1 H2) as (Hheap & _).
  assert (A : audio_umb Examples.near_end < audio_lmb Examples.near_end
              \/ audio_umb Examples.near_end <= audio_umb Examples.near_end)
    by (right; apply Z.le_refl).
  exact (Hheap _ A).
Defined.

(** X7.  [play] puts no bound on what it copies.  When the byte count of a
    push exceeds the size of the block plus the room left before
    [audio_umb], the second copy runs past the end of the block: the bytes
    of the input land at [audio_umb] and above. *)
Theorem play_overruns_the_block g buf samples j :
  ring_ok g -> is_int (samples * 4) ->
  let room := audio_umb g - audio_eoq g in
  0 <= j < samples * 4 - room - buffer_size ->
  snd (play g buf samples) = 0
  /\ heap (fst (play g buf samples)) (audio_umb g + j) = buf (room + buffer_size + j).
Proof.
  intros Hok Hint room Hj. destruct Hok as [ok_umb0 ok_toq0 ok_eoq0 _ _ _ _].
  split; [apply play_returns_zero |].
  unfold play.
  replace (samples * 2 * 2) with (samples * 4) by lia.
  rewrite (to_int_small _ Hint).
  rewrite (space_to_end_eq g ok_umb0 ok_eoq0).
  unfold is_int in Hint. fold room.
  assert (Hroom : 0 <= room <= buffer_size) by (subst room; lia).
  rewrite (to_size_t_small (samples * 4)) by ring_arith.
  destruct (Z.geb_spec room (samples * 4)); [exfalso; ring_arith |].
  cbn [fst heap set_queue]. unfold memcpy, advance.
  rewrite (to_size_t_small (samples * 4 - room)) by ring_arith.
  rewrite ok_umb0.
  split_bools; try (exfalso; ring_arith); f_equal; subst room; ring_arith.
Qed.

Lemma play_overruns_the_block_witness :
  (is_int (400000 * 4)
   /\ 0 <= 7 < 400000 * 4
              - (audio_umb Examples.fresh - audio_eoq Examples.fresh) - buffer_size)
  /\ heap (fst (play Examples.fresh Examples.ones 400000))
       (audio_umb Examples.fresh + 7)
     = Examples.ones ((audio_umb Examples.fresh - audio_eoq Examples.fresh)
                      + buffer_size + 7).
Proof.
  assert (H1 : is_int (400000 * 4)) by (split; vm_compute; congruence).
  assert (H2 : 0 <= 7 < 400000 * 4
                 - (audio_umb Examples.fresh - audio_eoq Examples.fresh) - buffer_size)
    by (split; vm_compute; congruence).
  split; [split; [exact H1 | exact H2] |].
  exact (proj2 (play_overruns_the_block Examples.fresh Examples.ones 400000 7
                  fresh_ok H1 H2)).
Defined.

(** X8.  Empty input.  A push of zero frames and a callback for zero frames
    both return 0 and leave the queue as it is: cursors, occupancy and every
    byte of the heap; the callback writes no output slot. *)
Theorem zero_frames_change_nothing g buf sink L R :
  0 <= audio_occupancy g < 2 ^ 64 ->
  let g1 := fst (play g buf 0) in
  let r := jack_stream_write_cb g sink L R 0 in
  let g2 := cb_globals r in
  (snd (play g buf 0) = 0
   /\ audio_toq g1 = audio_toq g /\ audio_eoq g1 = audio_eoq g
   /\ audio_occupancy g1 = audio_occupancy g
   /\ forall a, heap g1 a = heap g a)
  /\ (cb_return r = 0
      /\ audio_toq g2 = audio_toq g /\ audio_eoq g2 = audio_eoq g
      /\ audio_occupancy g2 = audio_occupancy g
      /\ (forall a, heap g2 a = heap g a)
      /\ forall j, cb_left r j = L j /\ cb_right r j = R j).
Proof.
  intros Hocc. cbv zeta.
  assert (Hpos : 0 <= to_size_t (audio_umb g - audio_eoq g)).
  { unfold to_size_t, to_unsigned. apply Z.mod_pos_bound. lia. }
  assert (Hpos' : 0 <= to_size_t (audio_umb g - audio_toq g)).
  { unfold to_size_t, to_unsigned. apply Z.mod_pos_bound. lia. }
  split.
  - unfold play. change (to_size_t (to_int (0 * 2 * 2))) with 0.
    destruct (Z.geb_spec (to_size_t (audio_umb g - audio_eoq g)) 0); [| lia].
    cbn [fst snd set_queue audio_toq audio_eoq audio_occupancy heap].
    rewrite !Z.add_0_r, to_size_t_small by exact Hocc.
    repeat split. intros a. unfold memcpy.
    split_bools; try reflexivity; lia.
  - unfold jack_stream_write_cb.
    destruct (Z.ltb_spec (audio_occupancy g) 0); [lia |].
    change (to_size_t (0 * 2 * 2)) with 0.
    destruct (Z.leb_spec 0 (to_size_t (audio_umb g - audio_toq g))); [| lia].
    cbv beta iota zeta.
    change (to_nframes 0) with 0. change (Z.to_nat (0 - 0)) with O.
    cbn [silence_loop cb_return cb_globals cb_left cb_right set_transfer set_queue
         audio_toq audio_eoq audio_occupancy heap].
    rewrite Z.add_0_r, Z.sub_0_r, to_size_t_small by exact Hocc.
    repeat split.
Qed.

Lemma zero_frames_change_nothing_witness :
  0 <= audio_occupancy Scenarios.loaded < 2 ^ 64
  /\ audio_occupancy (fst (play Scenarios.loaded Examples.ones 0))
     = audio_occupancy Scenarios.loaded.
Proof.
  assert (H : 0 <= audio_occupancy Scenarios.loaded < 2 ^ 64)
    by (split; vm_compute; congruence).
  split; [exact H |].
  destruct (zero_frames_change_nothing Scenarios.loaded Examples.ones
              (Examples.clock_at 4) Examples.stale Examples.stale H)
    as ((_ & _ & _ & Hocc & _) & _).
  exact Hocc.
Defined.

(** ** The delay estimate and the queue *)

(** X9.  A push that fits the free space raises the delay reported for the
    same instant by exactly the frames pushed. *)
Theorem push_raises_delay_by_its_frames g buf samples time_now :
  ring_ok g -> push_fits g samples -> delay_in_range g time_now ->
  fst (jack_delay (fst (play g buf samples)) time_now)
  = fst (jack_delay g time_now) + samples.
Proof.
  intros Hok Hfit Hrange.
  destruct (play_within_free_space_queue g buf samples Hok Hfit) as (Hok1 & Hocc1 & _).
  cbv zeta in Hok1, Hocc1.
  set (g1 := fst (play g buf samples)) in *.
  assert (Hsame : latest_left_latency_range g1 = latest_left_latency_range g
                  /\ latest_right_latency_range g1 = latest_right_latency_range g
                  /\ time_of_latest_transfer g1 = time_of_latest_transfer g).
  { subst g1. unfold play. destruct (_ >=? _); repeat split. }
  destruct Hsame as (El & Er & Et).
  assert (Hrange1 : delay_in_range g1 time_now).
  { unfold delay_in_range in *. rewrite El, Er, Et.
    destruct Hrange as (Hl & Hr & _ & Hp).
    pose proof (ok_occupancy g1 Hok1).
    split; [exact Hl |]. split; [exact Hr |]. split; [ring_arith | exact Hp]. }
  rewrite (jack_delay_estimate g1 time_now Hrange1),
          (jack_delay_estimate g time_now Hrange).
  cbn [fst]. unfold estimate_delay_frames. rewrite El, Er, Et, Hocc1. lia.
Qed.

Lemma push_raises_delay_witness :
  (push_fits Examples.after_transfer 10
   /\ delay_in_range Examples.after_transfer 5000)
  /\ fst (jack_delay (fst (play Examples.after_transfer Examples.ones 10)) 5000)
     = fst (jack_delay Examples.after_transfer 5000) + 10.
Proof.
  assert (H1 : push_fits Examples.after_transfer 10).
  { split; [vm_compute; congruence |].
    unfold free_space.
    replace (audio_occupancy Examples.after_transfer) with 744 by reflexivity.
    vm_compute. congruence. }
  assert (H2 : delay_in_range Examples.after_transfer 5000)
    by (apply after_transfer_in_range; lia).
  assert (H0 : ring_ok Examples.after_transfer).
  { apply cb_ring_ok; [| split; vm_compute; congruence].
    apply play_ring_ok; [apply fresh_ok | split; vm_compute; congruence]. }
  split; [split; [exact H1 | exact H2] |].
  exact (push_raises_delay_by_its_frames Examples.after_transfer Examples.ones 10
           5000 H0 H1 H2).
Defined.

(** ** The client *)

Ltac open_cases sink :=
  unfold jack_client_open_if_needed, healthy;
  destruct (Z.eqb_spec (reply_client_open sink) 0);
  destruct (Z.eqb_spec (to_nframes (reply_sample_rate sink)) 44100);
  destruct (Z.eqb_spec (reply_set_latency_callback sink) 0);
  destruct (Z.eqb_spec (reply_activate sink) 0);
  cbn [negb andb].

(** An attempt on a closed client: what it returns and leaves behind. *)
Lemma open_attempt g sink :
  client_is_open g = 0 ->
  let '(g', t, rc) := jack_client_open_if_needed g sink in
  rc = client_is_open g'
  /\ client_is_open g' = (if healthy sink then 1 else 0)
  /\ count_client_open t = 1%nat
  /\ config g' = config g
  /\ poller_started g' = poller_started g.
Proof.
  intros Hclosed. open_cases sink; rewrite Hclosed; cbn [Z.eqb];
    repeat split; assumption.
Qed.

(** X10.  With the client closed, [jack_client_open_if_needed] opens it
    exactly when the Sink grants a client, runs at 44100, accepts the latency
    callback and activates; its result is the new [client_is_open], 0 or 1.
    [jack_activate] is called exactly when the first three steps succeed.
    The attempt takes and releases [client_mutex] and leaves the queue and
    the configuration alone. *)
Theorem open_succeeds_exactly_when_sink_is_healthy g sink :
  client_is_open g = 0 ->
  let '(g', t, rc) := jack_client_open_if_needed g sink in
  rc = client_is_open g'
  /\ (client_is_open g' = 1 <-> healthy sink = true)
  /\ (client_is_open g' = 0 <-> healthy sink = false)
  /\ (In ev_activate t <->
      reply_client_open sink <> 0
      /\ to_nframes (reply_sample_rate sink) = 44100
      /\ reply_set_latency_callback sink = 0)
  /\ hd_error t = Some (ev_lock client_mutex)
  /\ last t (ev_lock client_mutex) = ev_unlock client_mutex
  /\ (audio_toq g' = audio_toq g /\ audio_eoq g' = audio_eoq g
      /\ audio_occupancy g' = audio_occupancy g /\ config g' = config g).
Proof.
  intros Hclosed. open_cases sink; rewrite Hclosed; cbn [Z.eqb];
    (split; [reflexivity |]);
    (split; [split; intros H; (reflexivity || discriminate H) |]);
    (split; [split; intros H; (reflexivity || discriminate H) |]);
    (split; [cbn [In app]; split;
             [intros H; repeat destruct H as [H | H]; try discriminate H;
              try contradiction; repeat split; assumption
             | intros (H1 & H2 & H3); try contradiction; tauto] |]);
    repeat split.
Qed.

Lemma open_succeeds_witness :
  client_is_open Examples.initial_globals = 0
  /\ client_is_open (fst (fst (jack_client_open_if_needed Examples.initial_globals
                                 Examples.healthy_sink))) = 1.
Proof.
  assert (H : client_is_open Examples.initial_globals = 0) by reflexivity.
  split; [exact H |].
  pose proof (open_succeeds_exactly_when_sink_is_healthy Examples.initial_globals
                Examples.healthy_sink H) as Hopen.
  destruct (jack_client_open_if_needed Examples.initial_globals Examples.healthy_sink)
    as [[g' t] rc].
  destruct Hopen as (_ & Hiff & _). apply Hiff. reflexivity.
Defined.

Lemma close_result g sink :
  client_is_open (fst (jack_close g sink)) = 0
  /\ forall sink',
       jack_close (fst (jack_close g sink)) sink'
       = (fst (jack_close g sink), [td_lock client_mutex; td_unlock client_mutex]).
Proof.
  unfold jack_close.
  destruct (Z.eqb_spec (client_is_open g) 0) as [Hc | Ho]; cbn [negb fst].
  - split; [exact Hc |]. intros sink'. rewrite Hc. reflexivity.
  - split; [reflexivity |]. intros sink'. reflexivity.
Qed.

(** X11.  [jack_close] always leaves the client closed: a failure of
    [jack_deactivate] or of [jack_client_close] is only logged.  On an open
    client both are called, in that order; on a closed one neither is.
    The queue and the configuration are untouched, and closing again does
    nothing. *)
Theorem jack_close_always_closes g sink :
  let '(g', t) := jack_close g sink in
  client_is_open g' = 0
  /\ (client_is_open g <> 0 ->
      exists t1 t2 t3, t = t1 ++ td_deactivate :: t2 ++ td_client_close :: t3)
  /\ (client_is_open g = 0 -> ~ In td_deactivate t /\ ~ In td_client_close t)
  /\ (In (td_debug 1 msg_error_deactivating) t <->
      client_is_open g <> 0 /\ reply_deactivate sink <> 0)
  /\ (audio_toq g' = audio_toq g /\ audio_eoq g' = audio_eoq g
      /\ audio_occupancy g' = audio_occupancy g /\ config g' = config g)
  /\ (forall sink', jack_close g' sink'
                    = (g', [td_lock client_mutex; td_unlock client_mutex])).
Proof.
  unfold jack_close.
  destruct (Z.eqb_spec (client_is_open g) 0) as [Hc | Ho]; cbn [negb].
  - split; [exact Hc |]. split; [intros H; contradiction |].
    split; [intros _; split; cbn; intros H;
            repeat destruct H as [H | H]; try discriminate H; exact H |].
    split; [split; [cbn; intros H; repeat destruct H as [H | H];
                    try discriminate H; contradiction
                   | intros [H _]; contradiction] |].
    split; [repeat split |]. intros sink'. rewrite Hc. reflexivity.
  - split; [reflexivity |].
    split.
    { intros _. eexists [td_lock client_mutex], _, _. cbn [app]. reflexivity. }
    split; [intros H; contradiction |].
    split.
    { destruct (Z.eqb_spec (reply_deactivate sink) 0);
        destruct (Z.eqb_spec (reply_client_close sink) 0); cbn; split;
        try (intros H; repeat destruct H as [H | H]; try discriminate H;
             try contradiction; split; assumption);
        intros [_ H]; try contradiction; tauto. }
    split; [repeat split |].
    intros sink'. reflexivity.
Qed.

(** X12.  [jack_stop] closes the client only when auto-disconnect is
    configured.  Then the client is closed and the next turn of the poller
    with a healthy Sink opens it again; otherwise [jack_stop] changes
    nothing, calls nothing, and the turn of the poller finds the client open
    and makes no attempt. *)
Theorem jack_stop_follows_auto_disconnect g sink sink' :
  client_is_open g = 1 -> healthy sink' = true ->
  let g1 := fst (jack_stop g sink) in
  let tick := open_client_if_necessary_tick g1 sink' in
  (jack_auto_client_disconnect (config g) <> 0 ->
     client_is_open g1 = 0 /\ fst (jack_is_running g1) = -1
     /\ client_is_open (fst tick) = 1)
  /\ (jack_auto_client_disconnect (config g) = 0 ->
        jack_stop g sink = (g, []) /\ tick = (g, [])).
Proof.
  intros Hopen Hs. cbv zeta. unfold jack_stop.
  destruct (Z.eqb_spec (jack_auto_client_disconnect (config g)) 0) as [Hd | Hd];
    cbn [negb]; (split; [intros H; try contradiction | intros H; try contradiction]).
  - cbn [fst]. unfold open_client_if_necessary_tick. rewrite Hopen.
    split; reflexivity.
  - unfold jack_close. rewrite Hopen. cbn [Z.eqb negb fst].
    set (g1 := set_client g (client g) (sample_rate g) 0).
    assert (Hc : client_is_open g1 = 0) by reflexivity.
    split; [exact Hc |].
    split; [unfold jack_is_running; rewrite Hc; reflexivity |].
    unfold open_client_if_necessary_tick. rewrite Hc. cbn [Z.eqb].
    pose proof (open_attempt g1 sink' Hc) as Ha.
    destruct (jack_client_open_if_needed g1 sink') as [[g2 t2] rc2].
    destruct Ha as (_ & Ho & _). rewrite Hs in Ho. exact Ho.
Qed.

Lemma jack_stop_follows_auto_disconnect_witness :
  (client_is_open Scenarios.opened = 1 /\ healthy Examples.healthy_sink = true)
  /\ jack_stop Scenarios.opened Scenarios.polite = (Scenarios.opened, []).
Proof.
  assert (H1 : client_is_open Scenarios.opened = 1) by reflexivity.
  assert (H2 : healthy Examples.healthy_sink = true) by reflexivity.
  split; [split; [exact H1 | exact H2] |].
  destruct (jack_stop_follows_auto_disconnect Scenarios.opened Scenarios.polite
              Examples.healthy_sink H1 H2) as (_ & Hkeep).
  exact (proj1 (Hkeep eq_refl)).
Defined.

(** X13.  [jack_is_running] answers 0 when the client is open and -1 when
    it is not, never anything else; it asks for the latency ranges of the
    two ports only when the client is open, and it follows the life cycle:
    -1 after [jack_close], 0 after an attempt on a closed client with a
    healthy Sink, -1 after an attempt that fails. *)
Theorem jack_is_running_follows_client g :
  (fst (jack_is_running g) = 0 <-> client_is_open g <> 0)
  /\ (fst (jack_is_running g) = -1 <-> client_is_open g = 0)
  /\ (snd (jack_is_running g) <> [] <-> client_is_open g <> 0)
  /\ (forall sink, fst (jack_is_running (fst (jack_close g sink))) = -1)
  /\ (forall sink, client_is_open g = 0 ->
        fst (jack_is_running (fst (fst (jack_client_open_if_needed g sink))))
        = if healthy sink then 0 else -1).
Proof.
  unfold jack_is_running.
  split; [| split; [| split; [| split]]].
  - destruct (Z.eqb_spec (client_is_open g) 0); cbn [negb fst]; split;
      intros H; try reflexivity; try discriminate H; try contradiction; assumption.
  - destruct (Z.eqb_spec (client_is_open g) 0); cbn [negb fst]; split;
      intros H; try reflexivity; try discriminate H; try contradiction; assumption.
  - destruct (Z.eqb_spec (client_is_open g) 0); cbn [negb snd]; split;
      intros H; try discriminate; try contradiction; try assumption.
  - intros sink. unfold jack_close.
    destruct (Z.eqb_spec (client_is_open g) 0) as [Hc | Ho]; cbn [negb fst].
    + rewrite Hc. reflexivity.
    + reflexivity.
  - intros sink Hc. pose proof (open_attempt g sink Hc) as Ha.
    destruct (jack_client_open_if_needed g sink) as [[g' t] rc]. cbn [fst].
    destruct Ha as (_ & Ho & _). rewrite Ho.
    destruct (healthy sink); reflexivity.
Qed.

Lemma jack_close_always_closes_witness :
  client_is_open Scenarios.opened <> 0
  /\ client_is_open (fst (jack_close Scenarios.opened Scenarios.stubborn)) = 0.
Proof.
  split; [vm_compute; congruence |].
  pose proof (jack_close_always_closes Scenarios.opened Scenarios.stubborn) as H.
  destruct (jack_close Scenarios.opened Scenarios.stubborn) as [g' t].
  exact (proj1 H).
Defined.

Lemma jack_is_running_follows_client_witness :
  client_is_open Examples.initial_globals = 0
  /\ fst (jack_is_running Examples.initial_globals) = -1.
Proof.
  assert (H : client_is_open Examples.initial_globals = 0) by reflexivity.
  split; [exact H |].
  destruct (jack_is_running_follows_client Examples.initial_globals)
    as (_ & Hclosed & _).
  apply Hclosed. exact H.
Defined.

(** ** The poller *)

Lemma poller_on_open_client sinks : forall g,
  client_is_open g <> 0 ->
  open_client_if_necessary_thread_function sinks g = (g, []).
Proof.
  induction sinks as [| sink rest IH]; intros g Hopen; [reflexivity |].
  cbn [open_client_if_necessary_thread_function].
  destruct (negb _); [| reflexivity].
  unfold open_client_if_necessary_tick.
  destruct (Z.eqb_spec (client_is_open g) 0); [contradiction |].
  rewrite (IH g Hopen). reflexivity.
Qed.

Lemma count_client_open_app t1 t2 :
  count_client_open (t1 ++ t2) = (count_client_open t1 + count_client_open t2)%nat.
Proof. unfold count_client_open. rewrite filter_app, length_app. reflexivity. Qed.

(** X14.  The poller, with a non-zero interval and the client closed, makes
    one attempt per turn while the Sink is not healthy, opens the client at
    the first turn at which it is, and makes no attempt after that: over the
    turns [bad ++ good :: rest] the client ends open and [jack_client_open]
    has been called [length bad + 1] times.  Started on an open client it
    does nothing at all, and it never closes one. *)
Theorem poller_opens_at_first_healthy_turn bad : forall g good rest,
  jack_auto_client_open_interval (config g) <> 0 ->
  client_is_open g = 0 ->
  Forall (fun sink => healthy sink = false) bad ->
  healthy good = true ->
  let '(g', t) := open_client_if_necessary_thread_function (bad ++ good :: rest) g in
  client_is_open g' = 1
  /\ count_client_open t = S (List.length bad)
  /\ (forall more, open_client_if_necessary_thread_function more g' = (g', [])).
Proof.
  induction bad as [| sink bad IH]; intros g good rest Hint Hclosed Hbad Hgood.
  - cbn [app open_client_if_necessary_thread_function].
    destruct (Z.eqb_spec (jack_auto_client_open_interval (config g)) 0);
      [contradiction |]. cbn [negb].
    unfold open_client_if_necessary_tick. rewrite Hclosed. cbn [Z.eqb].
    pose proof (open_attempt g good Hclosed) as Ha.
    destruct (jack_client_open_if_needed g good) as [[g1 t1] rc1].
    destruct Ha as (_ & Ho & Hcount & _). rewrite Hgood in Ho.
    assert (Hopen : client_is_open g1 <> 0) by (rewrite Ho; discriminate).
    rewrite (poller_on_open_client rest g1 Hopen).
    split; [exact Ho |]. split.
    + rewrite app_nil_r. change (ev_debug 1 msg_try_to_open :: t1)
        with ([ev_debug 1 msg_try_to_open] ++ t1).
      rewrite count_client_open_app, Hcount. reflexivity.
    + intros more. apply poller_on_open_client. exact Hopen.
  - cbn [app open_client_if_necessary_thread_function].
    destruct (Z.eqb_spec (jack_auto_client_open_interval (config g)) 0);
      [contradiction |]. cbn [negb].
    unfold open_client_if_necessary_tick. rewrite Hclosed. cbn [Z.eqb].
    pose proof (open_attempt g sink Hclosed) as Ha.
    destruct (jack_client_open_if_needed g sink) as [[g1 t1] rc1].
    destruct Ha as (_ & Ho & Hcount & Hcfg & _).
    inversion Hbad as [| s l Hs Hrest]; subst. rewrite Hs in Ho.
    assert (Hint1 : jack_auto_client_open_interval (config g1) <> 0)
      by (rewrite Hcfg; exact Hint).
    pose proof (IH g1 good rest Hint1 Ho Hrest Hgood) as Hrec.
    destruct (open_client_if_necessary_thread_function (bad ++ good :: rest) g1)
      as [g2 t2].
    destruct Hrec as (Hopen & Hc & Hmore).
    split; [exact Hopen |]. split; [| exact Hmore].
    change (ev_debug 1 msg_try_to_open :: t1)
      with ([ev_debug 1 msg_try_to_open] ++ t1).
    rewrite !count_client_open_app, Hcount, Hc. reflexivity.
Qed.

Lemma poller_opens_witness :
  (jack_auto_client_open_interval (config Examples.initial_globals) <> 0
   /\ client_is_open Examples.initial_globals = 0
   /\ Forall (fun sink => healthy sink = false) [Scenarios.no_sink; Examples.fast_sink]
   /\ healthy Examples.healthy_sink = true)
  /\ client_is_open
       (fst (open_client_if_necessary_thread_function
               ([Scenarios.no_sink; Examples.fast_sink]
                ++ Examples.healthy_sink :: [Scenarios.no_sink])
               Examples.initial_globals)) = 1.
Proof.
  assert (H1 : jack_auto_client_open_interval (config Examples.initial_globals) <> 0)
    by (vm_compute; congruence).
  assert (H2 : client_is_open Examples.initial_globals = 0) by reflexivity.
  assert (H3 : Forall (fun sink => healthy sink = false)
                 [Scenarios.no_sink; Examples.fast_sink])
    by (repeat constructor).
  assert (H4 : healthy Examples.healthy_sink = true) by reflexivity.
  split; [split; [exact H1 | split; [exact H2 | split; [exact H3 | exact H4]]] |].
  pose proof (poller_opens_at_first_healthy_turn
                [Scenarios.no_sink; Examples.fast_sink] Examples.initial_globals
                Examples.healthy_sink [Scenarios.no_sink] H1 H2 H3 H4) as H.
  destruct (open_client_if_necessary_thread_function _ _) as [g' t].
  exact (proj1 H).
Defined.

(** ** jack_deinit *)

(** X15.  [jack_deinit] leaves the client closed and cancels and frees the
    poller exactly when one was started, after the client is closed.  It
    does not forget the poller: a second [jack_deinit] cancels and frees it
    again. *)
Theorem jack_deinit_closes_and_cancels g sink :
  let '(g', t) := jack_deinit g sink in
  client_is_open g' = 0
  /\ poller_started g' = poller_started g
  /\ (poller_started g = true ->
      t = snd (jack_close g sink) ++ [td_pthread_cancel; td_free]
      /\ forall sink', In td_free (snd (jack_deinit g' sink')))
  /\ (poller_started g = false ->
      t = snd (jack_close g sink) /\ ~ In td_pthread_cancel t /\ ~ In td_free t).
Proof.
  unfold jack_deinit.
  pose proof (close_result g sink) as Hclose.
  assert (Hp : poller_started (fst (jack_close g sink)) = poller_started g).
  { unfold jack_close. destruct (negb _); reflexivity. }
  assert (Hnone : ~ In td_pthread_cancel (snd (jack_close g sink))
                  /\ ~ In td_free (snd (jack_close g sink))).
  { unfold jack_close. destruct (negb (client_is_open g =? 0));
      [destruct (negb (reply_deactivate sink =? 0));
       destruct (negb (reply_client_close sink =? 0)) |];
      cbn; split; intros H; repeat destruct H as [H | H]; try discriminate H; exact H. }
  destruct (jack_close g sink) as [g1 t1]. cbn [fst snd] in *.
  destruct Hclose as (Hc & Hagain).
  rewrite Hp. destruct (poller_started g) eqn:Hstarted.
  - split; [exact Hc |]. split; [exact Hp |].
    split; [| intros H; discriminate H].
    intros _. split; [reflexivity |].
    intros sink'. rewrite (Hagain sink'), Hp. cbn. tauto.
  - split; [exact Hc |]. split; [exact Hp |].
    split; [intros H; discriminate H |].
    intros _. split; [reflexivity | exact Hnone].
Qed.

Lemma jack_deinit_witness :
  poller_started Scenarios.opened = true
  /\ client_is_open (fst (jack_deinit Scenarios.opened Scenarios.polite)) = 0.
Proof.
  split; [reflexivity |].
  pose proof (jack_deinit_closes_and_cancels Scenarios.opened Scenarios.polite) as H.
  destruct (jack_deinit Scenarios.opened Scenarios.polite) as [g' t].
  exact (proj1 H).
Defined.

(** ** jack_init *)

Ltac open_init :=
  unfold jack_init;
  match goal with
  | |- context [match ?X with Some _ => _ | None => Undefined end] =>
      destruct X as [[c3 t3] |] eqn:Hsettings
  end.

Lemma settings_read_or_faulty parse g cfg env :
  faulty_debug_formatted cfg env = true <-> jack_init parse g cfg env = Undefined.
Proof.
  unfold faulty_debug_formatted, jack_init.
  destruct cfg as [f |].
  - destruct (lookup_auto_client_open_interval f) as [value |].
    + destruct ((value <? 0) || (value >? 300)); cbn [andb];
        [destruct (debug_formats env 1) |]; cbv beta iota zeta;
        try (split; [reflexivity | reflexivity]);
        (split; [intros H; discriminate H |]);
        destruct (malloc_buffer env =? 0); try (intros H; discriminate H);
        destruct (negb _); [destruct (malloc_thread env =? 0) | | destruct (malloc_thread env =? 0) |];
        try (match goal with |- context [jack_client_open_if_needed ?a ?b] =>
               destruct (jack_client_open_if_needed a b) as [[g3 t'] rc'] end);
        intros H; discriminate H.
    + cbv beta iota zeta. split; [intros H; discriminate H |].
      destruct (malloc_buffer env =? 0); try (intros H; discriminate H).
      destruct (negb _); [destruct (malloc_thread env =? 0) |];
        try (match goal with |- context [jack_client_open_if_needed ?a ?b] =>
               destruct (jack_client_open_if_needed a b) as [[g3 t'] rc'] end);
        intros H; discriminate H.
  - cbv beta iota zeta. split; [intros H; discriminate H |].
    destruct (malloc_buffer env =? 0); try (intros H; discriminate H).
    destruct (negb _); [destruct (malloc_thread env =? 0) |];
      try (match goal with |- context [jack_client_open_if_needed ?a ?b] =>
             destruct (jack_client_open_if_needed a b) as [[g3 t'] rc'] end);
      intros H; discriminate H.
Qed.

(** What [jack_init] leaves when it returns. *)
Lemma jack_init_returned parse g cfg env g0 t rc :
  jack_init parse g cfg env = Returned g0 t rc ->
  rc = 0 /\ malloc_buffer env <> 0
  /\ ring_ok g0 /\ audio_occupancy g0 = 0
  /\ audio_lmb g0 = malloc_buffer env
  /\ (client_is_open g0 = 0 \/ client_is_open g0 = 1)
  /\ (client_is_open g0 = 1 -> healthy (init_sink env) = true)
  /\ (reply_strdup env "Shairport Sync" <> None -> jack_client_name (config g0) <> None)
  /\ (reply_strdup env "left" <> None -> jack_left_channel_name (config g0) <> None)
  /\ (reply_strdup env "right" <> None -> jack_right_channel_name (config g0) <> None).
Proof.
  open_init; [| discriminate].
  assert (Hsome : forall o d, reply_strdup env d <> None -> strdup_if_null env o d <> None)
    by (intros [s |] d H; [discriminate | exact H]).
  destruct (Z.eqb_spec (malloc_buffer env) 0) as [Hnull | Hblock]; [discriminate |].
  destruct (negb _); [destruct (malloc_thread env =? 0) |];
    try (match goal with |- context [jack_client_open_if_needed ?a ?b] =>
           pose proof (open_attempt a b eq_refl) as Ha;
           pose proof (jack_client_open_if_needed_queue a b) as Hq;
           destruct (jack_client_open_if_needed a b) as [[g3 t'] rc'] end;
         cbv zeta in Hq; cbn [fst] in Hq;
         destruct Hq as (E1 & E2 & E3 & E4 & E5 & _);
         cbn in E1, E2, E3, E4, E5;
         destruct Ha as (_ & Ho & _ & Hcfg & _));
    intros H; inversion H; subst; clear H;
    (split; [reflexivity |]); (split; [exact Hblock |]);
    (split; [apply (ring_ok_empty _ (malloc_buffer env)); cbn; congruence |]);
    (split; [cbn; congruence |]); (split; [cbn; congruence |]);
    try rewrite Ho; try rewrite Hcfg; cbn;
    (split; [destruct (healthy (init_sink env)); auto |]);
    (split; [destruct (healthy (init_sink env)); intros H;
             (reflexivity || discriminate H) |]);
    repeat split; apply Hsome.
Qed.

(** X16.  [jack_init] has three outcomes.  Its behaviour is undefined
    exactly when the settings give an interval out of range and [debug]
    formats the faulty line; otherwise it dies exactly when the buffer
    cannot be allocated; otherwise it returns 0 with an empty, well-formed
    ring on the block it was given, the client closed or open (open only if
    the Sink was healthy), and each of the three names not NULL provided
    [strdup] delivers its default. *)
Theorem jack_init_outcome parse g cfg env :
  (faulty_debug_formatted cfg env = true <-> jack_init parse g cfg env = Undefined)
  /\ (faulty_debug_formatted cfg env = false ->
      (malloc_buffer env = 0 <-> jack_init parse g cfg env = Died))
  /\ (faulty_debug_formatted cfg env = false -> malloc_buffer env <> 0 ->
      exists g' t,
        jack_init parse g cfg env = Returned g' t 0
        /\ ring_ok g' /\ audio_occupancy g' = 0
        /\ audio_lmb g' = malloc_buffer env
        /\ (client_is_open g' = 0 \/ client_is_open g' = 1)
        /\ (client_is_open g' = 1 -> healthy (init_sink env) = true)
        /\ (reply_strdup env "Shairport Sync" <> None ->
            jack_client_name (config g') <> None)
        /\ (reply_strdup env "left" <> None ->
            jack_left_channel_name (config g') <> None)
        /\ (reply_strdup env "right" <> None ->
            jack_right_channel_name (config g') <> None)).
Proof.
  pose proof (settings_read_or_faulty parse g cfg env) as Hfaulty.
  split; [exact Hfaulty |].
  destruct (jack_init parse g cfg env) as [| | g' t rc] eqn:Hinit.
  - split.
    + intros _. split; [reflexivity |]. intros _.
      revert Hinit. open_init; [| discriminate].
      destruct (Z.eqb_spec (malloc_buffer env) 0) as [Hnull | Hblock];
        [intros _; exact Hnull |].
      destruct (negb _); [destruct (malloc_thread env =? 0) |];
        try (match goal with |- context [jack_client_open_if_needed ?a ?b] =>
               destruct (jack_client_open_if_needed a b) as [[g3 t'] rc'] end);
        intros H; discriminate H.
    + intros _ Hblock. exfalso. revert Hinit. open_init; [| discriminate].
      destruct (Z.eqb_spec (malloc_buffer env) 0) as [Hnull | _];
        [contradiction |].
      destruct (negb _); [destruct (malloc_thread env =? 0) |];
        try (match goal with |- context [jack_client_open_if_needed ?a ?b] =>
               destruct (jack_client_open_if_needed a b) as [[g3 t'] rc'] end);
        intros H; discriminate H.
  - split; intros Hok; rewrite (proj2 Hfaulty eq_refl) in Hok; discriminate Hok.
  - destruct (jack_init_returned parse g cfg env g' t rc Hinit)
      as (Hrc & Hblock & Hring & Hocc & Hlmb & Hstate & Hhealthy & Hn1 & Hn2 & Hn3).
    subst rc. split.
    + intros _. split; [intros Hnull; contradiction | intros H; discriminate H].
    + intros _ _. exists g', t.
      split; [reflexivity |]. split; [exact Hring |]. split; [exact Hocc |].
      split; [exact Hlmb |]. split; [exact Hstate |]. split; [exact Hhealthy |].
      split; [exact Hn1 |]. split; [exact Hn2 | exact Hn3].
Qed.

Lemma jack_init_outcome_witness :
  (faulty_debug_formatted (Some (Scenarios.interval_only 301)) Examples.env = false
   /\ malloc_buffer Examples.env <> 0)
  /\ exists g' t,
       jack_init Examples.no_general_options Examples.boot
         (Some (Scenarios.interval_only 301)) Examples.env
       = Returned g' t 0
       /\ ring_ok g'.
Proof.
  assert (H1 : faulty_debug_formatted (Some (Scenarios.interval_only 301))
                 Examples.env = false) by reflexivity.
  assert (H2 : malloc_buffer Examples.env <> 0) by (vm_compute; congruence).
  split; [split; [exact H1 | exact H2] |].
  destruct (proj2 (proj2 (jack_init_outcome Examples.no_general_options Examples.boot
                            (Some (Scenarios.interval_only 301)) Examples.env))
              H1 H2) as (g' & t & Hr & Hok & _).
  exists g', t. split; [exact Hr | exact Hok].
Defined.

Lemma open_trace_quiet g sink :
  let t := snd (fst (jack_client_open_if_needed g sink)) in
  ~ In ev_pthread_create t
  /\ forall v d, ~ In (ev_debug 1 (msg_invalid_interval v d)) t.
Proof.
  unfold jack_client_open_if_needed.
  repeat match goal with |- context [if ?c then _ else _] => destruct c end;
    cbn; (split; [| intros v d]); intros Hin;
    repeat destruct Hin as [Hin | Hin]; try discriminate Hin; exact Hin.
Qed.

(** X17.  An interval from 0 to 300 in the settings file is taken as it
    is, without any complaint in the log, whatever the "general" options
    did.  With 0 no poller is created and [jack_init] itself makes the one
    attempt to open the client; with another value and memory for the
    thread, the poller is created and [jack_init] makes no attempt. *)
Theorem interval_in_range_is_taken parse g f env value :
  lookup_auto_client_open_interval f = Some value ->
  0 <= value <= 300 ->
  malloc_buffer env <> 0 ->
  exists g' t,
    jack_init parse g (Some f) env = Returned g' t 0
    /\ jack_auto_client_open_interval (config g') = value
    /\ (forall d, ~ In (ev_debug 1 (msg_invalid_interval value d)) t)
    /\ (value = 0 ->
        ~ In ev_pthread_create t /\ count_client_open t = 1%nat
        /\ client_is_open g' = (if healthy (init_sink env) then 1 else 0))
    /\ (value <> 0 -> malloc_thread env <> 0 ->
        In ev_pthread_create t /\ count_client_open t = 0%nat
        /\ client_is_open g' = 0 /\ poller_started g' = true).
Proof.
  intros Hlookup Hrange Hbuf.
  unfold jack_init. rewrite Hlookup.
  assert (Hcmp : (value <? 0) || (value >? 300) = false).
  { apply orb_false_iff. rewrite Z.gtb_ltb. split; apply Z.ltb_ge; lia. }
  rewrite Hcmp. cbn [jack_auto_client_open_interval app].
  destruct (Z.eqb_spec (malloc_buffer env) 0) as [| _]; [contradiction |].
  destruct (Z.eqb_spec value 0) as [Hzero | Hnonzero]; cbn [negb];
    [| destruct (Z.eqb_spec (malloc_thread env) 0) as [Hthread | Hthread]];
    try (match goal with |- context [jack_client_open_if_needed ?a ?b] =>
           pose proof (open_attempt a b eq_refl) as Ha;
           pose proof (open_trace_quiet a b) as Hq;
           destruct (jack_client_open_if_needed a b) as [[g3 t3] rc3] end;
         destruct Ha as (_ & Ho & Hcount & Hcfg & _);
         cbv zeta in Hq; cbn [fst snd] in Hq; destruct Hq as [Hnothread Hq]).
  - eexists; eexists. split; [reflexivity |].
    split; [rewrite Hcfg; reflexivity |].
    split; [intros d; apply Hq |].
    split; [| intros H; contradiction].
    intros _. split; [exact Hnothread |]. split; [exact Hcount | exact Ho].
  - eexists; eexists. split; [reflexivity |].
    split; [rewrite Hcfg; reflexivity |].
    split.
    { intros d Hin. cbn in Hin. destruct Hin as [Hin | Hin];
        [discriminate Hin | exact (Hq value d Hin)]. }
    split; intros H; contradiction.
  - eexists; eexists. split; [reflexivity |].
    split; [reflexivity |].
    split.
    { intros d Hin. cbn in Hin. destruct Hin as [Hin | Hin];
        [discriminate Hin | exact Hin]. }
    split; [intros H; contradiction |].
    intros _ _. split; [cbn; tauto |]. repeat split.
Qed.

Lemma interval_in_range_is_taken_witness :
  exists g' t,
    jack_init Examples.no_general_options Examples.boot
      (Some (mk_settings None None None (Some 0) None)) Examples.env
    = Returned g' t 0
    /\ jack_auto_client_open_interval (config g') = 0.
Proof.
  assert (H1 : 0 <= 0 <= 300) by (split; vm_compute; congruence).
  assert (H2 : malloc_buffer Examples.env <> 0) by (vm_compute; congruence).
  destruct (interval_in_range_is_taken Examples.no_general_options Examples.boot
              (mk_settings None None None (Some 0) None) Examples.env 0
              eq_refl H1 H2) as (g' & t & Hr & Hi & _).
  exists g', t. split; [exact Hr | exact Hi].
Defined.

(** ** Any sequence of calls *)

Lemma ring_ok_same_queue g g' :
  audio_lmb g' = audio_lmb g -> audio_umb g' = audio_umb g ->
  audio_toq g' = audio_toq g -> audio_eoq g' = audio_eoq g ->
  audio_occupancy g' = audio_occupancy g ->
  ring_ok g -> ring_ok g'.
Proof.
  intros E1 E2 E3 E4 E5 [H1 H2 H3 H4 H5 H6 H7].
  constructor; rewrite ?E1, ?E2, ?E3, ?E4, ?E5; assumption.
Qed.

Lemma play_frame g buf samples :
  let g' := fst (play g buf samples) in
  client_is_open g' = client_is_open g /\ config g' = config g
  /\ jack_latency g' = jack_latency g.
Proof. unfold play. destruct (_ >=? _); repeat split. Qed.

Lemma open_frame g sink :
  let g' := fst (fst (jack_client_open_if_needed g sink)) in
  (audio_lmb g' = audio_lmb g /\ audio_umb g' = audio_umb g
   /\ audio_toq g' = audio_toq g /\ audio_eoq g' = audio_eoq g
   /\ audio_occupancy g' = audio_occupancy g)
  /\ config g' = config g /\ jack_latency g' = jack_latency g
  /\ (client_is_open g' = client_is_open g \/ client_is_open g' = 1).
Proof.
  unfold jack_client_open_if_needed.
  repeat match goal with |- context [if ?c then _ else _] => destruct c end;
    cbn; repeat split; auto.
Qed.

Lemma close_frame g sink :
  let g' := fst (jack_close g sink) in
  (audio_lmb g' = audio_lmb g /\ audio_umb g' = audio_umb g
   /\ audio_toq g' = audio_toq g /\ audio_eoq g' = audio_eoq g
   /\ audio_occupancy g' = audio_occupancy g)
  /\ config g' = config g /\ jack_latency g' = jack_latency g
  /\ (client_is_open g' = client_is_open g \/ client_is_open g' = 0).
Proof.
  unfold jack_close. destruct (negb _); cbn; repeat split; auto.
Qed.

Ltac framed H :=
  cbv zeta in H;
  destruct H as ((E1 & E2 & E3 & E4 & E5) & Ecfg & Elat & Eopen);
  split; [eapply ring_ok_same_queue; eassumption |];
  split; [exact E1 |]; split; [exact E2 |];
  split; [destruct Eopen as [Eo | Eo]; rewrite Eo; auto |];
  split; [exact Ecfg | rewrite Elat; auto].

Ltac kept Hok Hstate :=
  split; [exact Hok |]; split; [reflexivity |]; split; [reflexivity |];
  split; [exact Hstate |]; split; [reflexivity | auto].

Lemma do_call_keeps g c :
  ring_ok g -> client_is_open g = 0 \/ client_is_open g = 1 ->
  calls_in_contract g [c] ->
  let g' := do_call g c in
  ring_ok g' /\ audio_lmb g' = audio_lmb g /\ audio_umb g' = audio_umb g
  /\ (client_is_open g' = 0 \/ client_is_open g' = 1)
  /\ config g' = config g
  /\ (jack_latency g = 0 -> jack_latency g' = 0).
Proof.
  intros Hok Hstate [Hc _].
  destruct c as [buf samples | sink l r nframes | | sink | sink | sink | sink
                 | mode ranges]; cbn [do_call]; cbv zeta.
  - destruct (play_frame g buf samples) as (Eo & Ecfg & Elat).
    split; [apply play_ring_ok; assumption |].
    split; [apply play_lmb |]. split; [apply play_umb |].
    split; [rewrite Eo; exact Hstate |]. split; [exact Ecfg | rewrite Elat; auto].
  - split; [apply cb_ring_ok; assumption |].
    rewrite cb_globals_eq by assumption.
    split; [reflexivity |]. split; [reflexivity |].
    split; [exact Hstate |]. split; [reflexivity | auto].
  - split; [apply empty_queue_ok |].
    split; [reflexivity |].
    split; [cbn; symmetry; apply (ok_umb g Hok) |].
    split; [exact Hstate |]. split; [reflexivity | auto].
  - unfold jack_start. pose proof (open_frame g sink) as H.
    destruct (jack_client_open_if_needed g sink) as [[g1 t1] rc1]. cbn [fst] in H.
    destruct (rc1 =? 0); cbn [fst]; framed H.
  - unfold jack_stop. destruct (negb _); [| cbn [fst]; kept Hok Hstate].
    pose proof (close_frame g sink) as H. framed H.
  - pose proof (close_frame g sink) as H. framed H.
  - unfold open_client_if_necessary_tick.
    destruct (client_is_open g =? 0); [| cbn [fst]; kept Hok Hstate].
    pose proof (open_frame g sink) as H.
    destruct (jack_client_open_if_needed g sink) as [[g1 t1] rc1]. cbn [fst] in *.
    framed H.
  - destruct mode; cbn [default_jack_set_latency_callback lcb_globals];
      [kept Hok Hstate |].
    split; [revert Hok; apply ring_ok_same_queue; reflexivity |].
    split; [reflexivity |]. split; [reflexivity |].
    split; [exact Hstate |]. split; [reflexivity | intros _; reflexivity].
Qed.

(** X18.  After [jack_init], along any sequence of calls into the driver
    (pushes that fit the free space, callbacks, flushes, starts, stops,
    closes, turns of the poller, latency callbacks, in any order) the ring
    stays well formed on the one block allocated at the start, the client is
    either closed or open, and the configuration is the one [jack_init]
    left; [jack_latency], zero at the start, stays zero. *)
Theorem driver_keeps_its_invariants parse gb cfg env g0 t rc calls :
  jack_init parse gb cfg env = Returned g0 t rc ->
  calls_in_contract g0 calls ->
  let g := do_calls g0 calls in
  ring_ok g
  /\ audio_lmb g = malloc_buffer env
  /\ audio_umb g = malloc_buffer env + buffer_size
  /\ (client_is_open g = 0 \/ client_is_open g = 1)
  /\ config g = config g0
  /\ (jack_latency g0 = 0 -> jack_latency g = 0).
Proof.
  intros Hinit Hcalls.
  destruct (jack_init_returned parse gb cfg env g0 t rc Hinit)
    as (_ & _ & Hok & _ & Hlmb & Hstate & _).
  cbv zeta.
  assert (Hgen : forall cs g,
            ring_ok g -> client_is_open g = 0 \/ client_is_open g = 1 ->
            calls_in_contract g cs ->
            ring_ok (do_calls g cs)
            /\ audio_lmb (do_calls g cs) = audio_lmb g
            /\ audio_umb (do_calls g cs) = audio_umb g
            /\ (client_is_open (do_calls g cs) = 0 \/ client_is_open (do_calls g cs) = 1)
            /\ config (do_calls g cs) = config g
            /\ (jack_latency g = 0 -> jack_latency (do_calls g cs) = 0)).
  { induction cs as [| c cs IH]; intros g Hg Hs Hc.
    - cbn [do_calls fold_left]. kept Hg Hs.
    - destruct Hc as [Hc Hrest].
      destruct (do_call_keeps g c Hg Hs (conj Hc I))
        as (Hg1 & El & Eu & Hs1 & Ec & Ej).
      cbv zeta in *.
      destruct (IH (do_call g c) Hg1 Hs1 Hrest) as (A & B & C & D & E & F).
      change (do_calls g (c :: cs)) with (do_calls (do_call g c) cs).
      split; [exact A |]. split; [congruence |]. split; [congruence |].
      split; [exact D |]. split; [congruence | auto]. }
  destruct (Hgen calls g0 Hok Hstate Hcalls) as (A & B & C & D & E & F).
  split; [exact A |]. split; [congruence |].
  split; [rewrite C, (ok_umb g0 Hok), Hlmb; reflexivity |].
  split; [exact D |]. split; [exact E | exact F].
Qed.

Lemma driver_keeps_its_invariants_witness :
  let calls := [call_play Examples.ramp 1000; call_start Examples.fast_sink;
                call_callback (Examples.clock_at 5) Examples.stale Examples.stale 256;
                call_tick Examples.healthy_sink; call_flush;
                call_stop Scenarios.polite] in
  calls_in_contract Examples.initial_globals calls
  /\ ring_ok (do_calls Examples.initial_globals calls).
Proof.
  cbv zeta.
  match goal with |- calls_in_contract ?g ?cs /\ _ =>
    assert (H : calls_in_contract g cs) end.
  { cbv [calls_in_contract push_fits is_nframes].
    repeat split; vm_compute; congruence. }
  split; [exact H |].
  exact (proj1 (driver_keeps_its_invariants Examples.no_general_options Examples.boot
                  None Examples.env Examples.initial_globals Examples.initial_trace 0
                  _ eq_refl H)).
Defined.

(** ** The converter *)

Lemma check_increasing_spec n : forall lo prev,
  check_increasing n lo prev = true ->
  forall z, lo <= z < lo + Z.of_nat n ->
    (prev < sample_value z)%Q
    /\ forall z', z < z' < lo + Z.of_nat n -> (sample_value z < sample_value z')%Q.
Proof.
  induction n as [| n IH]; intros lo prev Hcheck z Hz; [cbn in Hz; lia |].
  cbn [check_increasing] in Hcheck. cbv zeta in Hcheck.
  apply andb_true_iff in Hcheck. destruct Hcheck as [Hfirst Hrest].
  assert (Hlt : (prev < sample_value lo)%Q).
  { apply Qnot_le_lt. intros Hle. apply Qle_bool_iff in Hle.
    rewrite Hle in Hfirst. discriminate Hfirst. }
  rewrite Nat2Z.inj_succ in *.
  destruct (Z.eq_dec z lo) as [-> | Hne].
  - split; [exact Hlt |]. intros z' Hz'.
    exact (proj1 (IH (lo + 1) (sample_value lo) Hrest z' ltac:(lia))).
  - destruct (IH (lo + 1) (sample_value lo) Hrest z ltac:(lia)) as [Hz1 Hz2].
    split; [exact (Qlt_trans _ _ _ Hlt Hz1) |].
    intros z' Hz'. apply Hz2. lia.
Qed.

Lemma every_sample_above_the_previous :
  check_increasing (Z.to_nat 65536) (-32768) (-2) = true.
Proof. vm_compute. reflexivity. Qed.

Lemma sample_has_value sample :
  is_short sample -> float_value (convert sample) = Some (sample_value sample).
Proof.
  intros Hs.
  assert (Hok : convert_ok sample = true).
  { apply (check_range_spec convert_ok (Z.to_nat 65536) (-32768));
      [exact every_sample_converts_well | unfold is_short in Hs; lia]. }
  unfold convert_ok in Hok. cbv zeta in Hok.
  apply andb_true_iff in Hok. destruct Hok as [_ Hvalue].
  unfold value_ok in Hvalue. unfold sample_value.
  destruct (float_value (convert sample)); [reflexivity | discriminate Hvalue].
Qed.

(** X19.  The converter keeps the order of the samples, strictly: of two
    16-bit samples the greater one gives the greater float, so that no two
    samples are converted to the same value; a positive sample gives a
    positive float and a negative sample a negative one. *)
Theorem convert_strictly_increasing s1 s2 :
  is_short s1 -> is_short s2 -> s1 < s2 ->
  exists v1 v2 : Q,
    float_value (convert s1) = Some v1 /\ float_value (convert s2) = Some v2
    /\ (v1 < v2)%Q
    /\ convert s1 <> convert s2
    /\ (s1 = 0 -> (0 < v2)%Q) /\ (s2 = 0 -> (v1 < 0)%Q).
Proof.
  intros H1 H2 Hlt.
  exists (sample_value s1), (sample_value s2).
  assert (Hv : (sample_value s1 < sample_value s2)%Q).
  { unfold is_short in H1, H2.
    apply (proj2 (check_increasing_spec _ _ _ every_sample_above_the_previous s1
                    ltac:(lia)) s2). lia. }
  assert (Hzero : sample_value 0 = 0%Q) by reflexivity.
  split; [apply sample_has_value; exact H1 |].
  split; [apply sample_has_value; exact H2 |].
  split; [exact Hv |]. split; [| split].
  - intros Heq. unfold sample_value in Hv. rewrite Heq in Hv.
    exact (Qlt_irrefl _ Hv).
  - intros ->. rewrite Hzero in Hv. exact Hv.
  - intros ->. rewrite Hzero in Hv. exact Hv.
Qed.

Lemma convert_strictly_increasing_witness :
  (is_short (-1) /\ is_short 0 /\ -1 < 0)
  /\ convert (-1) <> convert 0.
Proof.
  assert (H1 : is_short (-1)) by (split; vm_compute; congruence).
  assert (H2 : is_short 0) by (split; vm_compute; congruence).
  assert (H3 : -1 < 0) by reflexivity.
  split; [split; [exact H1 | split; [exact H2 | exact H3]] |].
  destruct (convert_strictly_increasing (-1) 0 H1 H2 H3)
    as (v1 & v2 & _ & _ & _ & Hne & _).
  exact Hne.
Defined.

(** X20.  [deinterleave_and_convert_stream] writes the [number_of_frames]
    slots from [jack_frame_buffer] on and no other; slot [i] of them holds
    the conversion of the sample of its own channel in frame [i].  The
    output depends on no other byte: two heaps that agree on the samples of
    that channel give the same output. *)
Theorem deinterleave_reads_its_channel h p out fp n side :
  is_nframes n ->
  let out' := deinterleave_and_convert_stream h p out fp n side in
  (forall i, 0 <= i < n ->
     out' (fp + i) = convert (load_short h (p + side_offset side + 4 * i)))
  /\ (forall j, j < fp \/ fp + n <= j -> out' j = out j)
  /\ (forall h',
        (forall i, 0 <= i < n ->
           load_short h' (p + side_offset side + 4 * i)
           = load_short h (p + side_offset side + 4 * i)) ->
        forall j, deinterleave_and_convert_stream h' p out fp n side j = out' j).
Proof.
  intros Hn out'. subst out'. unfold is_nframes in Hn.
  split; [| split].
  - intros i Hi. rewrite deinterleave_spec by exact Hn.
    split_bools; try lia. do 3 f_equal. lia.
  - intros j Hj. rewrite deinterleave_spec by exact Hn.
    split_bools; try lia; reflexivity.
  - intros h' Hsame j. rewrite !deinterleave_spec by exact Hn.
    split_bools; try reflexivity. f_equal. apply Hsame. lia.
Qed.

Lemma deinterleave_reads_its_channel_witness :
  is_nframes 3
  /\ deinterleave_and_convert_stream Examples.ramp 0 Examples.stale 0 3
       IFT_frame_right_sample (0 + 2)
     = convert (load_short Examples.ramp (0 + side_offset IFT_frame_right_sample + 4 * 2)).
Proof.
  assert (H : is_nframes 3) by (split; vm_compute; congruence).
  split; [exact H |].
  destruct (deinterleave_reads_its_channel Examples.ramp 0 Examples.stale 0 3
              IFT_frame_right_sample H) as (Hread & _).
  assert (A : 0 <= 2 < 3) by (split; vm_compute; congruence).
  exact (Hread 2 A).
Defined.

(** ** jack_start and jack_flush *)

(** X21.  [jack_start] logs that it cannot open a client exactly when the
    client is closed afterwards; on a client that is already open it logs
    nothing, leaves the globals as they are and makes no call into libjack
    beyond taking the lock. *)
Theorem jack_start_reports_failure g sink :
  let '(g', t) := jack_start g sink in
  (In (ev_debug 1 msg_cannot_open_for_session) t <-> client_is_open g' = 0)
  /\ (client_is_open g <> 0 ->
      g' = g /\ t = [ev_lock client_mutex; ev_unlock client_mutex])
  /\ (client_is_open g = 0 ->
      client_is_open g' = (if healthy sink then 1 else 0)).
Proof.
  unfold jack_start.
  destruct (Z.eqb_spec (client_is_open g) 0) as [Hc | Ho].
  - pose proof (open_attempt g sink Hc) as Ha.
    assert (Hnolog : ~ In (ev_debug 1 msg_cannot_open_for_session)
                       (snd (fst (jack_client_open_if_needed g sink)))).
    { unfold jack_client_open_if_needed.
      repeat match goal with |- context [if ?c then _ else _] => destruct c end;
        cbn; intros Hin; repeat destruct Hin as [Hin | Hin];
        try discriminate Hin; exact Hin. }
    destruct (jack_client_open_if_needed g sink) as [[g1 t1] rc1].
    cbn [fst snd] in Hnolog. destruct Ha as (Hrc & Hopen & _).
    rewrite Hrc, Hopen.
    destruct (healthy sink); cbn [Z.eqb];
      (split; [| split; [intros H; contradiction | intros _; exact Hopen]]).
    + rewrite Hopen. split; [intros Hin; contradiction | intros H; discriminate H].
    + rewrite Hopen. split; [reflexivity |].
      intros _. apply in_or_app. right. left. reflexivity.
  - unfold jack_client_open_if_needed.
    destruct (Z.eqb_spec (client_is_open g) 0) as [| _]; [contradiction |].
    destruct (Z.eqb_spec (client_is_open g) 0) as [| _]; [contradiction |].
    split; [| split; [intros _; split; reflexivity | intros H; contradiction]].
    split; [| intros H; contradiction].
    cbn. intros Hin. repeat destruct Hin as [Hin | Hin]; try discriminate Hin.
    contradiction.
Qed.

Lemma jack_start_reports_failure_witness :
  client_is_open Examples.initial_globals = 0
  /\ client_is_open (fst (jack_start Examples.initial_globals Examples.fast_sink)) = 0.
Proof.
  assert (H : client_is_open Examples.initial_globals = 0) by reflexivity.
  split; [exact H |].
  pose proof (jack_start_reports_failure Examples.initial_globals Examples.fast_sink)
    as Hs.
  destruct (jack_start Examples.initial_globals Examples.fast_sink) as [g' t].
  destruct Hs as (_ & _ & Hclosed). exact (Hclosed H).
Defined.


